(** * A shallow embedding of the RV32I emulator [riskv]

    The development follows the Rust sources module by module:
    - [integer.rs]: fixed-width integers are [Z] values with the wrap-around
      of Rust's [as] casts written out;
    - [registers.rs]: the [Register] enum, the register file with its
      [ZeroRegister];
    - [csr.rs]: the 4096-entry CSR bank;
    - [memory.rs]: the auto-growing little-endian byte store;
    - [instructions/*.rs]: the bit-field codecs, [Instruction::decode],
      [Instruction::encode] and [InstructionSet::execute];
    - [instructions/pseudoinstructions.rs]: [Instruction::LI].

    Rust's arithmetic operators [+], [<<] and [>>] behave differently in the
    two build profiles: with overflow checks (the default for [cargo build]
    and [cargo test]) an overflowing addition or a shift by at least the bit
    width panics; without them the addition wraps and the shift amount is
    taken modulo the bit width.  Every definition that uses such an operator
    takes the profile as a boolean [overflow_checks], and a panic is an
    explicit outcome. *)

From Stdlib Require Import ZArith Bool List Lia.
Import ListNotations.
Open Scope Z_scope.

(** ** Fixed-width integers ([integer.rs] and Rust's [as] casts) *)

Definition wrap_u32 (z : Z) : Z := z mod 2 ^ 32.
Definition wrap_i32 (z : Z) : Z := (z + 2 ^ 31) mod 2 ^ 32 - 2 ^ 31.
Definition wrap_u16 (z : Z) : Z := z mod 2 ^ 16.
Definition wrap_i16 (z : Z) : Z := (z + 2 ^ 15) mod 2 ^ 16 - 2 ^ 15.
Definition wrap_u8 (z : Z) : Z := z mod 2 ^ 8.
Definition wrap_i8 (z : Z) : Z := (z + 2 ^ 7) mod 2 ^ 8 - 2 ^ 7.

Definition in_i32 (z : Z) : bool := (- 2 ^ 31 <=? z) && (z <? 2 ^ 31).

(** [AsUnsigned] / [AsSigned] for [i32]/[u32]: a reinterpretation of the bits. *)
Definition as_unsigned (z : Z) : Z := wrap_u32 z.
Definition as_signed (z : Z) : Z := wrap_i32 z.

Section RustArith.
Variable overflow_checks : bool.

(** [a + b] on [i32]: panics on overflow when checked, wraps otherwise. *)
Definition add_i32 (a b : Z) : option Z :=
  if overflow_checks && negb (in_i32 (a + b)) then None
  else Some (wrap_i32 (a + b)).

(** [a << n] on [i32] (value bits shifted out are lost, never checked);
    a shift amount of 32 or more panics when checked, is masked otherwise. *)
Definition shl_i32 (a n : Z) : option Z :=
  if n <? 32 then Some (wrap_i32 (Z.shiftl a n))
  else if overflow_checks then None
  else Some (wrap_i32 (Z.shiftl a (n mod 32))).

(** [a >> n] on [i32]: an arithmetic shift. *)
Definition shr_i32 (a n : Z) : option Z :=
  if n <? 32 then Some (Z.shiftr a n)
  else if overflow_checks then None
  else Some (Z.shiftr a (n mod 32)).

(** [a >> n] on [u32]: a logical shift. *)
Definition shr_u32 (a n : Z) : option Z :=
  if n <? 32 then Some (Z.shiftr a n)
  else if overflow_checks then None
  else Some (Z.shiftr a (n mod 32)).
End RustArith.

Definition wrapping_add (a b : Z) : Z := wrap_i32 (a + b).
Definition wrapping_sub (a b : Z) : Z := wrap_i32 (a - b).

(** The [i12] module. *)
Module i12.
Definition MAX : Z := 2047.
Definition MIN : Z := -2048.
Definition MASK : Z := 0xFFF.

Definition is_positive (value : Z) : bool := Z.land value 0x800 =? 0.

Definition sign_extend (value : Z) : Z :=
  if is_positive value then wrap_i16 (Z.land value 0x7FF)
  else wrap_i16 (Z.lor (Z.land value 0xFFF) 0xF000).
End i12.

(** ** Registers ([registers.rs]) *)

Inductive Register : Type :=
| ZERO | RA | SP | GP | TP | T0 | T1 | T2 | S0 | S1
| A0 | A1 | A2 | A3 | A4 | A5 | A6 | A7
| S2 | S3 | S4 | S5 | S6 | S7 | S8 | S9 | S10 | S11
| T3 | T4 | T5 | T6.

(** The [#[repr(u8)]] discriminant, [value as u8]. *)
Definition Register_index (r : Register) : Z :=
  match r with
  | ZERO => 0 | RA => 1 | SP => 2 | GP => 3 | TP => 4 | T0 => 5 | T1 => 6
  | T2 => 7 | S0 => 8 | S1 => 9 | A0 => 10 | A1 => 11 | A2 => 12 | A3 => 13
  | A4 => 14 | A5 => 15 | A6 => 16 | A7 => 17 | S2 => 18 | S3 => 19
  | S4 => 20 | S5 => 21 | S6 => 22 | S7 => 23 | S8 => 24 | S9 => 25
  | S10 => 26 | S11 => 27 | T3 => 28 | T4 => 29 | T5 => 30 | T6 => 31
  end.

Definition Register_eqb (r1 r2 : Register) : bool :=
  Register_index r1 =? Register_index r2.

(** [Register::const_from]; [None] is the [panic!] of the last arm. *)
Definition Register_const_from (value : Z) : option Register :=
  match Z.land value 31 with
  | 0 => Some ZERO | 1 => Some RA | 2 => Some SP | 3 => Some GP
  | 4 => Some TP | 5 => Some T0 | 6 => Some T1 | 7 => Some T2
  | 8 => Some S0 | 9 => Some S1 | 10 => Some A0 | 11 => Some A1
  | 12 => Some A2 | 13 => Some A3 | 14 => Some A4 | 15 => Some A5
  | 16 => Some A6 | 17 => Some A7 | 18 => Some S2 | 19 => Some S3
  | 20 => Some S4 | 21 => Some S5 | 22 => Some S6 | 23 => Some S7
  | 24 => Some S8 | 25 => Some S9 | 26 => Some S10 | 27 => Some S11
  | 28 => Some T3 | 29 => Some T4 | 30 => Some T5 | 31 => Some T6
  | _ => None
  end.

(** [ZeroRegister<T>]: [zero_cell] is the private field [zero], the only one
    shared references are given to; [scratch_cell] is the private field
    [_zero], which [deref_mut] resets and hands out. *)
Record ZeroRegister : Type := mkZeroRegister {
  zero_cell : Z;
  scratch_cell : Z
}.

(** [Registers<T>]: the field [zero] and one field per other register, here
    one cell per [Register] constructor ([gprs ZERO] is never used). *)
Record Registers : Type := mkRegisters {
  zero : ZeroRegister;
  gprs : Register -> Z
}.

(** [Default] for [Registers<i32>]. *)
Definition Registers_default : Registers :=
  {| zero := {| zero_cell := 0; scratch_cell := 0 |}; gprs := fun _ => 0 |}.

(** [Index<Register>]: register 0 reads through [Deref], i.e. [zero_cell]. *)
Definition Registers_index (rs : Registers) (r : Register) : Z :=
  match r with
  | ZERO => zero_cell (zero rs)
  | _ => gprs rs r
  end.

(** [Index<u8>]: indices 0..31 name the same fields as the registers of
    that discriminant; any other index panics ([None]). *)
Definition Registers_index_u8 (rs : Registers) (index : Z) : option Z :=
  if (0 <=? index) && (index <? 32) then
    option_map (Registers_index rs) (Register_const_from index)
  else None.

(** [registers[r] = value] through [IndexMut<Register>]: for register 0,
    [deref_mut] resets [_zero] to the default and the value lands in it. *)
Definition Registers_assign (rs : Registers) (r : Register) (value : Z)
  : Registers :=
  match r with
  | ZERO =>
      let zr := {| zero_cell := zero_cell (zero rs); scratch_cell := 0 |} in
      {| zero := {| zero_cell := zero_cell zr; scratch_cell := value |};
         gprs := gprs rs |}
  | _ =>
      {| zero := zero rs;
         gprs := fun r' => if Register_eqb r' r then value else gprs rs r' |}
  end.

(** [registers[index] = value] through [IndexMut<u8>]: indices 0..31 name
    the same fields as [IndexMut<Register>] (0 goes through [deref_mut]);
    any other index panics ([None]). *)
Definition Registers_assign_u8 (rs : Registers) (index value : Z)
  : option Registers :=
  if (0 <=? index) && (index <? 32) then
    option_map (fun r => Registers_assign rs r value) (Register_const_from index)
  else None.

(** ** Exceptions ([instruction_set.rs]) *)

Inductive Exception : Type :=
| UnimplementedInstruction (word : Z)
| MisalignedInstructionFetch.

Inductive Result (A E : Type) : Type :=
| Ok (a : A)
| Err (e : E).
Arguments Ok {A E} a.
Arguments Err {A E} e.

(** ** Instructions ([instructions/mod.rs]) *)

Inductive Instruction : Type :=
| LUI (rd : Register) (imm : Z)
| AUIPC (rd : Register) (imm : Z)
| ADDI (rd rs1 : Register) (imm : Z)
| SLTI (rd rs1 : Register) (imm : Z)
| SLTIU (rd rs1 : Register) (imm : Z)
| XORI (rd rs1 : Register) (imm : Z)
| ORI (rd rs1 : Register) (imm : Z)
| ANDI (rd rs1 : Register) (imm : Z)
| SLLI (rd rs1 : Register) (shamt : Z)
| SRLI (rd rs1 : Register) (shamt : Z)
| SRAI (rd rs1 : Register) (shamt : Z)
| ADD (rd rs1 rs2 : Register)
| SUB (rd rs1 rs2 : Register)
| SLL (rd rs1 rs2 : Register)
| SLT (rd rs1 rs2 : Register)
| SLTU (rd rs1 rs2 : Register)
| XOR (rd rs1 rs2 : Register)
| SRL (rd rs1 rs2 : Register)
| SRA (rd rs1 rs2 : Register)
| OR (rd rs1 rs2 : Register)
| AND (rd rs1 rs2 : Register)
| LB (rd rs1 : Register) (offset : Z)
| LH (rd rs1 : Register) (offset : Z)
| LW (rd rs1 : Register) (offset : Z)
| LBU (rd rs1 : Register) (offset : Z)
| LHU (rd rs1 : Register) (offset : Z)
| SB (rs1 rs2 : Register) (offset : Z)
| SH (rs1 rs2 : Register) (offset : Z)
| SW (rs1 rs2 : Register) (offset : Z)
| CSRRW (rd rs1 : Register) (csr : Z)
| CSRRS (rd rs1 : Register) (csr : Z)
| CSRRC (rd rs1 : Register) (csr : Z)
| CSRRWI (rd : Register) (csr : Z) (imm : Z)
| CSRRSI (rd : Register) (csr : Z) (imm : Z)
| CSRRCI (rd : Register) (csr : Z) (imm : Z)
| JAL (rd : Register) (offset : Z)
| JALR (rd rs1 : Register) (offset : Z)
| BEQ (rs1 rs2 : Register) (offset : Z)
| BNE (rs1 rs2 : Register) (offset : Z)
| BLT (rs1 rs2 : Register) (offset : Z)
| BGE (rs1 rs2 : Register) (offset : Z)
| BLTU (rs1 rs2 : Register) (offset : Z)
| BGEU (rs1 rs2 : Register) (offset : Z).

(** ** Bit-field codecs ([instructions/rd.rs], [rs1.rs], ...)

    Masks are written in hexadecimal; the Rust sources write the same
    constants in binary, grouped by instruction field. *)

Definition Rd_decode (value : Z) : option Register :=
  Register_const_from (Z.shiftr (Z.land value 0xF80) 7).
Definition Rd_encode (value : Register) : Z := Z.shiftl (Register_index value) 7.

Definition Rs1_decode (value : Z) : option Register :=
  Register_const_from (Z.shiftr (Z.land value 0xF8000) 15).
Definition Rs1_encode (value : Register) : Z := Z.shiftl (Register_index value) 15.

Definition Rs2_decode (value : Z) : option Register :=
  Register_const_from (Z.shiftr (Z.land value 0x1F00000) 20).
Definition Rs2_encode (value : Register) : Z := Z.shiftl (Register_index value) 20.

Definition Funct3_decode (value : Z) : Z := Z.shiftr (Z.land value 0x7000) 12.
Definition Funct7_decode (value : Z) : Z := wrap_u8 (Z.shiftr value 25).
Definition Funct6_decode (value : Z) : Z := wrap_u8 (Z.shiftr value 26).

(** [Shamt]: the 6-bit field of bits 20..25. *)
Definition Shamt_decode (value : Z) : Z := Z.shiftr (Z.land value 0x3F00000) 20.
Definition Shamt_encode (value : Z) : Z :=
  Z.land (wrap_u32 (Z.shiftl (wrap_u32 value) 20)) 0x3F00000.

(** [ImmI]: [((value as i32) >> 20) as i16]. *)
Definition ImmI_decode (value : Z) : Z := wrap_i16 (Z.shiftr (wrap_i32 value) 20).
Definition ImmI_encode (value : Z) : Z := wrap_u32 (Z.shiftl (wrap_u32 value) 20).

(** [ImmU]: [(value >> 12) as i32]. *)
Definition ImmU_decode (value : Z) : Z := wrap_i32 (Z.shiftr value 12).
Definition ImmU_encode (value : Z) : Z := wrap_u32 (Z.shiftl (wrap_u32 value) 12).

Definition Csr_decode (value : Z) : Z := wrap_u16 (Z.shiftr value 20).
Definition Csr_encode (value : Z) : Z := wrap_u32 (Z.shiftl value 20).

Definition CsrImm_decode (value : Z) : Z := Z.shiftr (Z.land value 0xF8000) 15.
Definition CsrImm_encode (value : Z) : Z :=
  Z.land (wrap_u32 (Z.shiftl value 15)) 0xF8000.

(** [SImmI]; the [i32] addition adds a multiple of 32 in [-2048, 2016] and a
    value in [0, 31], so it cannot overflow. *)
Definition SImmI_decode (value : Z) : Z :=
  wrap_i16 (Z.shiftr (wrap_i32 (Z.land value 0xFE000000)) 20
            + Z.shiftr (Z.land value 0xF80) 7).
Definition SImmI_encode (value : Z) : Z :=
  let trunk := wrap_u32 (Z.land value i12.MASK) in
  Z.land (wrap_u32 (Z.shiftl trunk 20) + wrap_u32 (Z.shiftl trunk 7))
         (0xFE000000 + 0xF80).

(** [BImm]: the four pieces occupy disjoint bits, so the sum cannot
    overflow; the final mask is [-2]. *)
Definition BImm_decode (value : Z) : Z :=
  Z.land
    (wrap_i16 (Z.shiftr (wrap_i32 (Z.land value 0x80000000)) 19
               + Z.shiftl (Z.land value 0x80) 4
               + Z.shiftr (Z.land value 0x7E000000) 20
               + Z.shiftr (Z.land value 0xF00) 7))
    (-2).
Definition BImm_encode (value : Z) : Z :=
  let value := wrap_u32 value in
  Z.land (wrap_u32 (Z.shiftl value 19)) 0x80000000
  + Z.land (Z.shiftr value 4) 0x80
  + Z.land (wrap_u32 (Z.shiftl value 20)) 0x7E000000
  + Z.land (wrap_u32 (Z.shiftl value 7)) 0xF00.

(** [JImm]: as for [BImm], the pieces are disjoint. *)
Definition JImm_decode (value : Z) : Z :=
  Z.land
    (Z.land value 0xFF000
     + Z.shiftr (wrap_i32 (Z.land value 0x80000000)) 11
     + Z.shiftr (Z.land value 0x7FE00000) 20
     + Z.shiftr (Z.land value 0x100000) 9)
    (-2).
Definition JImm_encode (value : Z) : Z :=
  let value := wrap_u32 value in
  Z.land (wrap_u32 (Z.shiftl value 11)) 0x80000000
  + Z.land (wrap_u32 (Z.shiftl value 20)) 0x7FE00000
  + Z.land (wrap_u32 (Z.shiftl value 9)) 0x100000
  + Z.land value 0xFF000.

(** [Instruction::op_code]. *)
Definition op_code (value : Z) : Z := Z.land value 0x7F.

(** ** [Instruction::decode]

    The outer [option] is a panic ([Register::const_from]'s unreachable
    arm); the inner [Result] is the Rust return value. *)

Notation "'let?' x ':=' e 'in' b" :=
  (match e with Some x => b | None => None end)
  (at level 200, x name, e at level 100, b at level 200).

Definition decode (value : Z) : option (Result Instruction Exception) :=
  let unimplemented := Some (Err (UnimplementedInstruction value)) in
  match op_code value with
  | 0x37 => (* 0b_0110111 *)
      let? rd := Rd_decode value in Some (Ok (LUI rd (ImmU_decode value)))
  | 0x17 => (* 0b_0010111 *)
      let? rd := Rd_decode value in Some (Ok (AUIPC rd (ImmU_decode value)))
  | 0x13 => (* 0b_0010011 *)
      let? rd := Rd_decode value in
      let? rs1 := Rs1_decode value in
      match Funct3_decode value with
      | 0 => Some (Ok (ADDI rd rs1 (ImmI_decode value)))
      | 1 => Some (Ok (SLLI rd rs1 (Shamt_decode value)))
      | 2 => Some (Ok (SLTI rd rs1 (ImmI_decode value)))
      | 3 => Some (Ok (SLTIU rd rs1 (ImmI_decode value)))
      | 4 => Some (Ok (XORI rd rs1 (ImmI_decode value)))
      | 5 =>
          match Funct6_decode value with
          | 0 => Some (Ok (SRLI rd rs1 (Shamt_decode value)))
          | 16 => (* 0b_010000 *) Some (Ok (SRAI rd rs1 (Shamt_decode value)))
          | _ => unimplemented
          end
      | 6 => Some (Ok (ORI rd rs1 (ImmI_decode value)))
      | 7 => Some (Ok (ANDI rd rs1 (ImmI_decode value)))
      | _ => unimplemented
      end
  | 0x33 => (* 0b_0110011 *)
      let? rd := Rd_decode value in
      let? rs1 := Rs1_decode value in
      let? rs2 := Rs2_decode value in
      match Funct3_decode value, Funct7_decode value with
      | 0, 0 => Some (Ok (ADD rd rs1 rs2))
      | 0, 32 => (* 0b_0100000 *) Some (Ok (SUB rd rs1 rs2))
      | 1, 0 => Some (Ok (SLL rd rs1 rs2))
      | 2, 0 => Some (Ok (SLT rd rs1 rs2))
      | 3, 0 => Some (Ok (SLTU rd rs1 rs2))
      | 4, 0 => Some (Ok (XOR rd rs1 rs2))
      | 5, 0 => Some (Ok (SRL rd rs1 rs2))
      | 5, 32 => Some (Ok (SRA rd rs1 rs2))
      | 6, 0 => Some (Ok (OR rd rs1 rs2))
      | 7, 0 => Some (Ok (AND rd rs1 rs2))
      | _, _ => unimplemented
      end
  | 0x03 => (* 0b_0000011 *)
      let? rd := Rd_decode value in
      let? rs1 := Rs1_decode value in
      match Funct3_decode value with
      | 0 => Some (Ok (LB rd rs1 (ImmI_decode value)))
      | 1 => Some (Ok (LH rd rs1 (ImmI_decode value)))
      | 2 => Some (Ok (LW rd rs1 (ImmI_decode value)))
      | 4 => Some (Ok (LBU rd rs1 (ImmI_decode value)))
      | 5 => Some (Ok (LHU rd rs1 (ImmI_decode value)))
      | _ => unimplemented
      end
  | 0x23 => (* 0b_0100011 *)
      let? rs1 := Rs1_decode value in
      let? rs2 := Rs2_decode value in
      match Funct3_decode value with
      | 0 => Some (Ok (SB rs1 rs2 (SImmI_decode value)))
      | 1 => Some (Ok (SH rs1 rs2 (SImmI_decode value)))
      | 2 => Some (Ok (SW rs1 rs2 (SImmI_decode value)))
      | _ => unimplemented
      end
  | 0x73 => (* 0b_1110011 *)
      let? rd := Rd_decode value in
      let? rs1 := Rs1_decode value in
      match Funct3_decode value with
      | 1 => Some (Ok (CSRRW rd rs1 (Csr_decode value)))
      | 2 => Some (Ok (CSRRS rd rs1 (Csr_decode value)))
      | 3 => Some (Ok (CSRRC rd rs1 (Csr_decode value)))
      | 5 => Some (Ok (CSRRWI rd (Csr_decode value) (CsrImm_decode value)))
      | 6 => Some (Ok (CSRRSI rd (Csr_decode value) (CsrImm_decode value)))
      | 7 => Some (Ok (CSRRCI rd (Csr_decode value) (CsrImm_decode value)))
      | _ => unimplemented
      end
  | 0x6F => (* 0b_1101111 *)
      let? rd := Rd_decode value in Some (Ok (JAL rd (JImm_decode value)))
  | 0x63 => (* 0b_1100011 *)
      let? rs1 := Rs1_decode value in
      let? rs2 := Rs2_decode value in
      match Funct3_decode value with
      | 0 => Some (Ok (BEQ rs1 rs2 (BImm_decode value)))
      | 1 => Some (Ok (BNE rs1 rs2 (BImm_decode value)))
      | 4 => Some (Ok (BLT rs1 rs2 (BImm_decode value)))
      | 5 => Some (Ok (BGE rs1 rs2 (BImm_decode value)))
      | 6 => Some (Ok (BLTU rs1 rs2 (BImm_decode value)))
      | 7 => Some (Ok (BGEU rs1 rs2 (BImm_decode value)))
      | _ => unimplemented
      end
  | 0x67 => (* 0b_1100111 *)
      let? rd := Rd_decode value in
      let? rs1 := Rs1_decode value in
      match Funct3_decode value with
      | 0 => Some (Ok (JALR rd rs1 (ImmI_decode value)))
      | _ => unimplemented
      end
  | _ => unimplemented
  end.

(** ** [Instruction::encode]

    The [u32] additions combine fields that occupy disjoint bit ranges. *)

(** [types::R], [types::I], [types::U], [types::S]. *)
Definition R_encode (rd rs1 rs2 : Register) : Z :=
  Rd_encode rd + Rs1_encode rs1 + Rs2_encode rs2.
Definition I_encode (rd rs1 : Register) (imm : Z) : Z :=
  Rd_encode rd + Rs1_encode rs1 + ImmI_encode imm.
Definition I_encode_csr (rd rs1 : Register) (csr : Z) : Z :=
  Rd_encode rd + Rs1_encode rs1 + Csr_encode csr.
Definition I_encode_csri (rd : Register) (imm csr : Z) : Z :=
  Rd_encode rd + CsrImm_encode imm + Csr_encode csr.
Definition I_encode_shamt (rd rs1 : Register) (shamt : Z) : Z :=
  Rd_encode rd + Rs1_encode rs1 + Shamt_encode shamt.
Definition U_encode (rd : Register) (imm : Z) : Z :=
  Rd_encode rd + ImmU_encode imm.
Definition S_encode (rs1 rs2 : Register) (simmi : Z) : Z :=
  Rs1_encode rs1 + Rs2_encode rs2 + SImmI_encode simmi.

(** Modelled from the spec: [types::B::encode] and [types::J::encode], which
    [Instruction::encode] calls but which are absent from [types.rs]; they
    scatter the registers and the B/J immediate into the architected
    positions, like their siblings [types::S] and [types::U]. *)
Definition B_encode (rs1 rs2 : Register) (offset : Z) : Z :=
  Rs1_encode rs1 + Rs2_encode rs2 + BImm_encode offset.
Definition J_encode (rd : Register) (offset : Z) : Z :=
  Rd_encode rd + JImm_encode offset.

Definition encode (i : Instruction) : Z :=
  match i with
  | LUI rd imm => 0x37 + U_encode rd imm
  | AUIPC rd imm => 0x17 + U_encode rd imm
  | ADDI rd rs1 imm => 0x13 + I_encode rd rs1 imm
  | SLTI rd rs1 imm => 0x2013 + I_encode rd rs1 imm
  | SLTIU rd rs1 imm => 0x3013 + I_encode rd rs1 imm
  | XORI rd rs1 imm => 0x4013 + I_encode rd rs1 imm
  | ORI rd rs1 imm => 0x6013 + I_encode rd rs1 imm
  | ANDI rd rs1 imm => 0x7013 + I_encode rd rs1 imm
  | SLLI rd rs1 shamt => 0x1013 + I_encode_shamt rd rs1 shamt
  | SRLI rd rs1 shamt => 0x5013 + I_encode_shamt rd rs1 shamt
  | SRAI rd rs1 shamt => 0x40005013 + I_encode_shamt rd rs1 shamt
  | ADD rd rs1 rs2 => 0x33 + R_encode rd rs1 rs2
  | SUB rd rs1 rs2 => 0x40000033 + R_encode rd rs1 rs2
  | SLL rd rs1 rs2 => 0x1033 + R_encode rd rs1 rs2
  | SLT rd rs1 rs2 => 0x2033 + R_encode rd rs1 rs2
  | SLTU rd rs1 rs2 => 0x3033 + R_encode rd rs1 rs2
  | XOR rd rs1 rs2 => 0x4033 + R_encode rd rs1 rs2
  | SRL rd rs1 rs2 => 0x5033 + R_encode rd rs1 rs2
  | SRA rd rs1 rs2 => 0x40005033 + R_encode rd rs1 rs2
  | OR rd rs1 rs2 => 0x6033 + R_encode rd rs1 rs2
  | AND rd rs1 rs2 => 0x7033 + R_encode rd rs1 rs2
  | LB rd rs1 offset => 0x03 + I_encode rd rs1 offset
  | LH rd rs1 offset => 0x1003 + I_encode rd rs1 offset
  | LW rd rs1 offset => 0x2003 + I_encode rd rs1 offset
  | LBU rd rs1 offset => 0x4003 + I_encode rd rs1 offset
  | LHU rd rs1 offset => 0x5003 + I_encode rd rs1 offset
  | SB rs1 rs2 offset => 0x23 + S_encode rs1 rs2 offset
  | SH rs1 rs2 offset => 0x1023 + S_encode rs1 rs2 offset
  | SW rs1 rs2 offset => 0x2023 + S_encode rs1 rs2 offset
  | CSRRW rd rs1 csr => 0x1073 + I_encode_csr rd rs1 csr
  | CSRRS rd rs1 csr => 0x2073 + I_encode_csr rd rs1 csr
  | CSRRC rd rs1 csr => 0x3073 + I_encode_csr rd rs1 csr
  | CSRRWI rd csr imm => 0x5073 + I_encode_csri rd imm csr
  | CSRRSI rd csr imm => 0x6073 + I_encode_csri rd imm csr
  | CSRRCI rd csr imm => 0x7073 + I_encode_csri rd imm csr
  | JAL rd offset => 0x6F + J_encode rd offset
  | JALR rd rs1 offset => 0x67 + I_encode rd rs1 offset
  | BEQ rs1 rs2 offset => 0x63 + B_encode rs1 rs2 offset
  | BNE rs1 rs2 offset => 0x1063 + B_encode rs1 rs2 offset
  | BLT rs1 rs2 offset => 0x4063 + B_encode rs1 rs2 offset
  | BGE rs1 rs2 offset => 0x5063 + B_encode rs1 rs2 offset
  | BLTU rs1 rs2 offset => 0x6063 + B_encode rs1 rs2 offset
  | BGEU rs1 rs2 offset => 0x7063 + B_encode rs1 rs2 offset
  end.

(** ** Control status registers ([csr.rs], [CSR32])

    A boxed slice of [CSR_SIZE] atomic cells; here a total map whose cells
    outside [0, CSR_SIZE) are never reached, since every access checks the
    slice bound first (out of bounds panics: [None]). *)

Definition CSR_SIZE : Z := 4096.

Record CSR32 : Type := mkCSR32 { csr_cells : Z -> Z }.

Definition CSR32_default : CSR32 := {| csr_cells := fun _ => 0 |}.

Definition CSR32_update (c : CSR32) (index value : Z) : CSR32 :=
  {| csr_cells := fun j => if j =? index then value else csr_cells c j |}.

(** [read]: a load. *)
Definition CSR32_read (c : CSR32) (index : Z) : option Z :=
  if index <? CSR_SIZE then Some (csr_cells c index) else None.

(** [read_write]: a [swap], returning the old value. *)
Definition CSR32_read_write (c : CSR32) (index value : Z) : option (Z * CSR32) :=
  if index <? CSR_SIZE
  then Some (csr_cells c index, CSR32_update c index value) else None.

(** [set_bits]: a [fetch_or]. *)
Definition CSR32_set_bits (c : CSR32) (index value : Z) : option (Z * CSR32) :=
  if index <? CSR_SIZE
  then Some (csr_cells c index,
             CSR32_update c index (Z.lor (csr_cells c index) value))
  else None.

(** [clear_bits]: a [fetch_and] with [!value]. *)
Definition CSR32_clear_bits (c : CSR32) (index value : Z) : option (Z * CSR32) :=
  if index <? CSR_SIZE
  then Some (csr_cells c index,
             CSR32_update c index (Z.land (csr_cells c index) (Z.lnot value)))
  else None.

(** ** Memory ([memory.rs]): a [Vec<u8>] of byte values in [0, 256). *)

Record Memory : Type := mkMemory { data : list Z }.

Fixpoint list_set (l : list Z) (n : nat) (x : Z) : list Z :=
  match l, n with
  | [], _ => []
  | _ :: t, O => x :: t
  | h :: t, S n' => h :: list_set t n' x
  end.

(** [resize::<N>(location)]: grow, zero-filled, to [location + N] bytes. *)
Definition resize (n : nat) (m : Memory) (location : nat) : Memory :=
  if Nat.ltb (length (data m)) (location + n)
  then {| data := data m ++ repeat 0 (location + n - length (data m)) |}
  else m.

Definition byte_at (m : Memory) (location : nat) : Z := nth location (data m) 0.

Definition load_byte (m : Memory) (location : nat) : Z * Memory :=
  let m := resize 1 m location in
  (wrap_i8 (byte_at m location), m).

Definition load_half (m : Memory) (location : nat) : Z * Memory :=
  let m := resize 2 m location in
  (wrap_i16 (byte_at m location + 2 ^ 8 * byte_at m (location + 1)), m).

Definition load_word (m : Memory) (location : nat) : Z * Memory :=
  let m := resize 4 m location in
  (wrap_i32 (byte_at m location + 2 ^ 8 * byte_at m (location + 1)
             + 2 ^ 16 * byte_at m (location + 2)
             + 2 ^ 24 * byte_at m (location + 3)), m).

(** [value.to_le_bytes()] for a [w]-byte value. *)
Fixpoint le_bytes (w : nat) (value : Z) : list Z :=
  match w with
  | O => []
  | S w' => wrap_u8 value :: le_bytes w' (Z.shiftr value 8)
  end.

(** [data[location..location + w].copy_from_slice(bytes)]. *)
Fixpoint write_bytes (l : list Z) (location : nat) (bytes : list Z) : list Z :=
  match bytes with
  | [] => l
  | b :: bs => write_bytes (list_set l location b) (S location) bs
  end.

Definition store_n (n : nat) (m : Memory) (location : nat) (value : Z) : Memory :=
  let m := resize n m location in
  {| data := write_bytes (data m) location (le_bytes n value) |}.

Definition store_byte := store_n 1.
Definition store_half := store_n 2.
Definition store_word := store_n 4.

(** ** The processor ([Processor<i32, CSR32>]) *)

Record Processor : Type := mkProcessor {
  registers : Registers;
  csrs : CSR32;
  memory : Memory;
  pc : Z
}.

Definition Processor_default : Processor :=
  {| registers := Registers_default; csrs := CSR32_default;
     memory := {| data := [] |}; pc := 0 |}.

Definition set_registers (p : Processor) (rs : Registers) : Processor :=
  {| registers := rs; csrs := csrs p; memory := memory p; pc := pc p |}.
Definition set_csrs (p : Processor) (c : CSR32) : Processor :=
  {| registers := registers p; csrs := c; memory := memory p; pc := pc p |}.
Definition set_memory (p : Processor) (m : Memory) : Processor :=
  {| registers := registers p; csrs := csrs p; memory := m; pc := pc p |}.
Definition set_pc (p : Processor) (v : Z) : Processor :=
  {| registers := registers p; csrs := csrs p; memory := memory p; pc := v |}.

(** ** The effect of [execute] on [&mut Processor]

    A state monad over the processor with Rust's two ways out: an early
    [return Err(..)], which leaves the processor as mutated so far, and a
    panic. *)

Inductive Outcome (A : Type) : Type :=
| Returns (a : A) (p : Processor)
| Throws (e : Exception) (p : Processor)
| Panics.
Arguments Returns {A} a p.
Arguments Throws {A} e p.
Arguments Panics {A}.

Definition M (A : Type) : Type := Processor -> Outcome A.

Definition ret {A} (a : A) : M A := fun p => Returns a p.
Definition bind {A B} (m : M A) (k : A -> M B) : M B :=
  fun p => match m p with
           | Returns a p' => k a p'
           | Throws e p' => Throws e p'
           | Panics => Panics
           end.
Definition get : M Processor := fun p => Returns p p.
Definition put (p : Processor) : M unit := fun _ => Returns tt p.
Definition throw {A} (e : Exception) : M A := fun p => Throws e p.
(** A Rust expression that may panic. *)
Definition lift {A} (o : option A) : M A :=
  fun p => match o with Some a => Returns a p | None => Panics end.

Notation "'let*' x ':=' m 'in' k" := (bind m (fun x => k))
  (at level 200, x name, m at level 100, k at level 200).
Notation "m ;; k" := (bind m (fun _ => k)) (at level 100, right associativity).

(** [processor.registers[r]]. *)
Definition reg (r : Register) : M Z :=
  fun p => Returns (Registers_index (registers p) r) p.
(** [processor.registers[rd] = value]. *)
Definition set_reg (rd : Register) (value : Z) : M unit :=
  fun p => Returns tt (set_registers p (Registers_assign (registers p) rd value)).

Definition csr_op (op : CSR32 -> option (Z * CSR32)) : M Z :=
  fun p => match op (csrs p) with
           | Some (old, c) => Returns old (set_csrs p c)
           | None => Panics
           end.
Definition csr_read (index : Z) : M Z :=
  fun p => match CSR32_read (csrs p) index with
           | Some v => Returns v p
           | None => Panics
           end.

Definition mem_load (load : Memory -> nat -> Z * Memory) (location : Z) : M Z :=
  fun p => let (v, m) := load (memory p) (Z.to_nat location) in
           Returns v (set_memory p m).
Definition mem_store (store : Memory -> nat -> Z -> Memory) (location value : Z)
  : M unit :=
  fun p => Returns tt (set_memory p (store (memory p) (Z.to_nat location) value)).

(** [Instruction::SHIFT_MASK]. *)
Definition SHIFT_MASK : Z := 0x1F.

(** The effective address of a load or store:
    [registers[rs1].wrapping_add(offset.into()).as_unsigned() as usize]. *)
Definition effective_address (rs1 : Register) (offset : Z) : M Z :=
  let* base := reg rs1 in ret (as_unsigned (wrapping_add base offset)).

(** ** [InstructionSet::execute] ([instructions/impl_instruction_set.rs]) *)

Section Execute.
Variable overflow_checks : bool.

Definition add := add_i32 overflow_checks.

(** One arm of the [match self]: it returns the value of the local [pc]
    at the end of the arm. *)
Definition execute_arm (i : Instruction) (pc0 : Z) (next : Z) : M Z :=
  match i with
  | LUI rd imm =>
      let* v := lift (shl_i32 overflow_checks imm 12) in set_reg rd v ;; ret next
  | AUIPC rd imm =>
      let* s := lift (shl_i32 overflow_checks imm 12) in
      let* v := lift (add pc0 s) in set_reg rd v ;; ret next
  | ADDI rd rs1 imm =>
      let* a := reg rs1 in set_reg rd (wrapping_add a imm) ;; ret next
  | SLTI rd rs1 imm =>
      let* a := reg rs1 in set_reg rd (Z.b2z (a <? imm)) ;; ret next
  | SLTIU rd rs1 imm =>
      let* a := reg rs1 in
      set_reg rd (Z.b2z (as_unsigned a <? as_unsigned imm)) ;; ret next
  | XORI rd rs1 imm =>
      let* a := reg rs1 in set_reg rd (Z.lxor a imm) ;; ret next
  | ORI rd rs1 imm =>
      let* a := reg rs1 in set_reg rd (Z.lor a imm) ;; ret next
  | ANDI rd rs1 imm =>
      let* a := reg rs1 in set_reg rd (Z.land a imm) ;; ret next
  | SLLI rd rs1 shamt =>
      let* a := reg rs1 in
      let* v := lift (shl_i32 overflow_checks a shamt) in set_reg rd v ;; ret next
  | SRLI rd rs1 shamt =>
      let* a := reg rs1 in
      let* v := lift (shr_u32 overflow_checks (as_unsigned a) shamt) in
      set_reg rd (as_signed v) ;; ret next
  | SRAI rd rs1 shamt =>
      let* a := reg rs1 in
      let* v := lift (shr_i32 overflow_checks a shamt) in set_reg rd v ;; ret next
  | ADD rd rs1 rs2 =>
      let* a := reg rs1 in let* b := reg rs2 in
      set_reg rd (wrapping_add a b) ;; ret next
  | SUB rd rs1 rs2 =>
      let* a := reg rs1 in let* b := reg rs2 in
      set_reg rd (wrapping_sub a b) ;; ret next
  | SLL rd rs1 rs2 =>
      let* a := reg rs1 in let* b := reg rs2 in
      let* v := lift (shl_i32 overflow_checks a (Z.land b SHIFT_MASK)) in
      set_reg rd v ;; ret next
  | SLT rd rs1 rs2 =>
      let* a := reg rs1 in let* b := reg rs2 in
      set_reg rd (Z.b2z (a <? b)) ;; ret next
  | SLTU rd rs1 rs2 =>
      let* a := reg rs1 in let* b := reg rs2 in
      set_reg rd (Z.b2z (as_unsigned a <? as_unsigned b)) ;; ret next
  | XOR rd rs1 rs2 =>
      let* a := reg rs1 in let* b := reg rs2 in
      set_reg rd (Z.lxor a b) ;; ret next
  | SRL rd rs1 rs2 =>
      let* a := reg rs1 in let* b := reg rs2 in
      let* v := lift (shr_u32 overflow_checks (as_unsigned a) (Z.land b SHIFT_MASK)) in
      set_reg rd (as_signed v) ;; ret next
  | SRA rd rs1 rs2 =>
      let* a := reg rs1 in let* b := reg rs2 in
      let* v := lift (shr_i32 overflow_checks a (Z.land b SHIFT_MASK)) in
      set_reg rd v ;; ret next
  | OR rd rs1 rs2 =>
      let* a := reg rs1 in let* b := reg rs2 in
      set_reg rd (Z.lor a b) ;; ret next
  | AND rd rs1 rs2 =>
      let* a := reg rs1 in let* b := reg rs2 in
      set_reg rd (Z.land a b) ;; ret next
  | CSRRW rd rs1 csr =>
      match rs1 with
      | ZERO =>
          let* v := csr_read csr in set_reg rd v ;; ret next
      | _ =>
          let* a := reg rs1 in
          let* v := csr_op (fun c => CSR32_read_write c csr a) in
          set_reg rd v ;; ret next
      end
  | CSRRS rd rs1 csr =>
      let* a := reg rs1 in
      let* v := csr_op (fun c => CSR32_set_bits c csr a) in set_reg rd v ;; ret next
  | CSRRC rd rs1 csr =>
      let* a := reg rs1 in
      let* v := csr_op (fun c => CSR32_clear_bits c csr a) in set_reg rd v ;; ret next
  | CSRRWI rd csr imm =>
      let* v := csr_op (fun c => CSR32_read_write c csr imm) in set_reg rd v ;; ret next
  | CSRRSI rd csr imm =>
      let* v := csr_op (fun c => CSR32_set_bits c csr imm) in set_reg rd v ;; ret next
  | CSRRCI rd csr imm =>
      let* v := csr_op (fun c => CSR32_clear_bits c csr imm) in set_reg rd v ;; ret next
  | LB rd rs1 offset =>
      let* addr := effective_address rs1 offset in
      let* v := mem_load load_byte addr in set_reg rd v ;; ret next
  | LH rd rs1 offset =>
      let* addr := effective_address rs1 offset in
      let* v := mem_load load_half addr in set_reg rd v ;; ret next
  | LW rd rs1 offset =>
      let* addr := effective_address rs1 offset in
      let* v := mem_load load_word addr in set_reg rd v ;; ret next
  | LBU rd rs1 offset =>
      let* addr := effective_address rs1 offset in
      let* v := mem_load load_byte addr in set_reg rd (wrap_u8 v) ;; ret next
  | LHU rd rs1 offset =>
      let* addr := effective_address rs1 offset in
      let* v := mem_load load_half addr in set_reg rd (wrap_u16 v) ;; ret next
  | SB rs1 rs2 offset =>
      let* addr := effective_address rs1 offset in
      let* b := reg rs2 in mem_store store_byte addr (wrap_i8 b) ;; ret next
  | SH rs1 rs2 offset =>
      let* addr := effective_address rs1 offset in
      let* b := reg rs2 in mem_store store_half addr (wrap_i16 b) ;; ret next
  | SW rs1 rs2 offset =>
      let* addr := effective_address rs1 offset in
      let* b := reg rs2 in mem_store store_word addr b ;; ret next
  | JAL rd offset =>
      let* jump := lift (add pc0 offset) in
      if negb (Z.rem jump 4 =? 0) then throw MisalignedInstructionFetch
      else set_reg rd next ;; ret jump
  | JALR rd rs1 offset =>
      let* a := reg rs1 in
      let* s := lift (add a offset) in
      let jump := Z.land s (Z.lnot 1) in
      if negb (Z.rem jump 4 =? 0) then throw MisalignedInstructionFetch
      else set_reg rd next ;; ret jump
  | BEQ rs1 rs2 offset =>
      let* a := reg rs1 in let* b := reg rs2 in
      if a =? b then
        if negb (Z.rem offset 4 =? 0) then throw MisalignedInstructionFetch
        else lift (add pc0 offset)
      else ret next
  | BNE rs1 rs2 offset =>
      let* a := reg rs1 in let* b := reg rs2 in
      if negb (a =? b) then
        if negb (Z.rem offset 4 =? 0) then throw MisalignedInstructionFetch
        else lift (add pc0 offset)
      else ret next
  | BLT rs1 rs2 offset =>
      let* a := reg rs1 in let* b := reg rs2 in
      if a <? b then
        if negb (Z.rem offset 4 =? 0) then throw MisalignedInstructionFetch
        else lift (add pc0 offset)
      else ret next
  | BGE rs1 rs2 offset =>
      let* a := reg rs1 in let* b := reg rs2 in
      if a >=? b then
        if negb (Z.rem offset 4 =? 0) then throw MisalignedInstructionFetch
        else lift (add pc0 offset)
      else ret next
  | BLTU rs1 rs2 offset =>
      let* a := reg rs1 in let* b := reg rs2 in
      if as_unsigned a <? as_unsigned b then
        if negb (Z.rem offset 4 =? 0) then throw MisalignedInstructionFetch
        else lift (add pc0 offset)
      else ret next
  | BGEU rs1 rs2 offset =>
      let* a := reg rs1 in let* b := reg rs2 in
      if as_unsigned a >=? as_unsigned b then
        if negb (Z.rem offset 4 =? 0) then throw MisalignedInstructionFetch
        else lift (add pc0 offset)
      else ret next
  end.

(** [let mut pc = processor.pc + 4; match self { .. } processor.pc = pc; Ok(())] *)
Definition execute (i : Instruction) : M unit :=
  let* p := get in
  let* next := lift (add (pc p) 4) in
  let* new_pc := execute_arm i (pc p) next in
  let* p' := get in
  put (set_pc p' new_pc).
End Execute.

(** ** Pseudoinstructions ([instructions/pseudoinstructions.rs]) *)

Inductive PseudoinstructionMappingIter : Type :=
| Three (a b c : Instruction)
| Two (a b : Instruction)
| One (a : Instruction)
| Zero.

(** The items of the iterator, front to back. *)
Definition items (it : PseudoinstructionMappingIter) : list Instruction :=
  match it with
  | Three a b c => [a; b; c]
  | Two a b => [a; b]
  | One a => [a]
  | Zero => []
  end.

(** [with_signed_i12_adjustment]. *)
Definition with_signed_i12_adjustment (value : Z) : Z :=
  if i12.is_positive value then 0 else 1.

(** [ImmU::RSHIFT]. *)
Definition ImmU_RSHIFT : Z := 12.

(** [Instruction::LI]; [None] is the overflow panic of the [i32] addition. *)
Definition LI (overflow_checks : bool) (rd : Register) (imm : Z)
  : option PseudoinstructionMappingIter :=
  if (imm >=? i12.MIN) && (imm <=? i12.MAX) then
    Some (One (ADDI rd ZERO (wrap_i16 imm)))
  else
    let? upper := add_i32 overflow_checks (Z.shiftr imm ImmU_RSHIFT)
                                          (with_signed_i12_adjustment imm) in
    Some (Two (LUI rd upper) (ADDI rd rd (i12.sign_extend imm))).

(** [Iterator::next]: the item at the front and the iterator left behind. *)
Definition next (it : PseudoinstructionMappingIter)
  : option Instruction * PseudoinstructionMappingIter :=
  match it with
  | Three a b c => (Some a, Two b c)
  | Two b c => (Some b, One c)
  | One c => (Some c, Zero)
  | Zero => (None, Zero)
  end.

(** [Iterator::size_hint]. *)
Definition size_hint (it : PseudoinstructionMappingIter) : Z * option Z :=
  let size := match it with
              | Three _ _ _ => 3
              | Two _ _ => 2
              | One _ => 1
              | Zero => 0
              end in
  (size, Some size).

(** [DoubleEndedIterator::next_back]. *)
Definition next_back (it : PseudoinstructionMappingIter)
  : option Instruction * PseudoinstructionMappingIter :=
  match it with
  | Three a b c => (Some c, Two a b)
  | Two b c => (Some c, One b)
  | One c => (Some c, Zero)
  | Zero => (None, Zero)
  end.

(** The other constructors of [impl Instruction] in [pseudoinstructions.rs].
    [JAL] and [JALR] come last, so that the other bodies name the
    instructions [JAL] and [JALR]. *)
Module Pseudo.
Definition NOT (rd rs : Register) := One (XORI rd rs (-1)).
Definition NEG (rd rs : Register) := One (SUB rd ZERO rs).
Definition MOV (rd rs : Register) := One (ADDI rd rs 0).
Definition SEQZ (rd rs : Register) := One (SLTIU rd rs 1).
Definition SNEZ (rd rs : Register) := One (SLTU rd ZERO rs).
Definition SLTZ (rd rs : Register) := One (SLT rd rs ZERO).
Definition SGLZ (rd rs : Register) := One (SLT rd ZERO rs).
Definition NOP := One (ADDI ZERO ZERO 0).
Definition CSRR (rd : Register) (csr : Z) := One (CSRRW rd ZERO csr).
Definition CSRW (rs1 : Register) (csr : Z) := One (CSRRW ZERO rs1 csr).
Definition CSRS (rs1 : Register) (csr : Z) := One (CSRRS ZERO rs1 csr).
Definition CSRC (rs1 : Register) (csr : Z) := One (CSRRC ZERO rs1 csr).
Definition CSRWI (csr imm : Z) := One (CSRRWI ZERO csr imm).
Definition CSRSI (csr imm : Z) := One (CSRRSI ZERO csr imm).
Definition CSRCI (csr imm : Z) := One (CSRRCI ZERO csr imm).
Definition J (offset : Z) := One (JAL ZERO offset).
Definition JR (rs : Register) := One (JALR ZERO rs 0).
Definition RET := One (JALR ZERO RA 0).
(** [address >> ImmU::RSHIFT] and [(address as i16) & i12::MASK]. *)
Definition CALL (address : Z) :=
  Two (AUIPC RA (Z.shiftr address ImmU_RSHIFT))
      (JALR RA RA (Z.land (wrap_i16 address) i12.MASK)).
Definition TAIL (address : Z) :=
  Two (AUIPC T1 (Z.shiftr address ImmU_RSHIFT))
      (JALR ZERO T1 (Z.land (wrap_i16 address) i12.MASK)).
Definition BEQZ (rs : Register) (offset : Z) := One (BEQ rs ZERO offset).
Definition BNEZ (rs : Register) (offset : Z) := One (BNE rs ZERO offset).
Definition BLEZ (rs : Register) (offset : Z) := One (BGE ZERO rs offset).
Definition BGEZ (rs : Register) (offset : Z) := One (BGE rs ZERO offset).
Definition BLTZ (rs : Register) (offset : Z) := One (BLT rs ZERO offset).
Definition JAL (offset : Z) := One (JAL RA offset).
Definition JALR (rs : Register) := One (JALR RA rs 0).
End Pseudo.

(** The loop of the [test_execute!] macro ([test/macros.rs]):
    [iter.try_for_each(|instruction| instruction.execute(&mut processor))],
    which drains the iterator with [next] and stops at the first [Err].
    The iterator yields at most three items, so three rounds run the loop
    to its end. *)
Fixpoint try_for_each_fuel (overflow_checks : bool) (fuel : nat)
  (it : PseudoinstructionMappingIter) : M unit :=
  match fuel with
  | O => ret tt
  | S fuel' =>
      match next it with
      | (Some i, it') => execute overflow_checks i ;; try_for_each_fuel overflow_checks fuel' it'
      | (None, _) => ret tt
      end
  end.

Definition execute_mapping (overflow_checks : bool) (it : PseudoinstructionMappingIter)
  : M unit :=
  try_for_each_fuel overflow_checks 3 it.

(** ** The processor's step loop *)

(** Modelled from the spec: the processor status ([Processor::step] and
    [Processor::run] are absent from [processor.rs] under [src/]): Ready
    (initial), Running, Halted (terminal). *)
Inductive Status : Type := Ready | Running | Halted.

(** Modelled from the spec: the fetch of [step()], 4 bytes at [pc] read as a
    little-endian 32-bit word ([load_word] at [pc] as an unsigned address,
    reinterpreted as [u32]). *)
Definition fetch : M Z :=
  let* p := get in
  let* w := mem_load load_word (as_unsigned (pc p)) in
  ret (wrap_u32 w).

(** Modelled from the spec: [step()] fetches, decodes and executes; any
    [Exception] from [decode] or [execute] halts the processor, otherwise it
    is Running with the new [pc]; Halted is terminal.  [None] is a panic. *)
Definition step (overflow_checks : bool) (s : Status) (p : Processor)
  : option (Status * Processor) :=
  match s with
  | Halted => Some (Halted, p)
  | _ =>
      match bind fetch (fun w =>
              let* d := lift (decode w) in
              match d with
              | Ok i => execute overflow_checks i
              | Err e => throw e
              end) p with
      | Returns _ p' => Some (Running, p')
      | Throws _ p' => Some (Halted, p')
      | Panics => None
      end
  end.

(** ** Vocabulary of the properties

    These definitions follow the words of the specification; the theorems
    below compare the code against them. *)

(** The destination register an instruction writes, if any. *)
Definition rd_of (i : Instruction) : option Register :=
  match i with
  | LUI rd _ | AUIPC rd _ | JAL rd _ => Some rd
  | ADDI rd _ _ | SLTI rd _ _ | SLTIU rd _ _ | XORI rd _ _ | ORI rd _ _
  | ANDI rd _ _ | SLLI rd _ _ | SRLI rd _ _ | SRAI rd _ _ => Some rd
  | ADD rd _ _ | SUB rd _ _ | SLL rd _ _ | SLT rd _ _ | SLTU rd _ _
  | XOR rd _ _ | SRL rd _ _ | SRA rd _ _ | OR rd _ _ | AND rd _ _ => Some rd
  | LB rd _ _ | LH rd _ _ | LW rd _ _ | LBU rd _ _ | LHU rd _ _ => Some rd
  | CSRRW rd _ _ | CSRRS rd _ _ | CSRRC rd _ _ => Some rd
  | CSRRWI rd _ _ | CSRRSI rd _ _ | CSRRCI rd _ _ => Some rd
  | JALR rd _ _ => Some rd
  | SB _ _ _ | SH _ _ _ | SW _ _ _ => None
  | BEQ _ _ _ | BNE _ _ _ | BLT _ _ _ | BGE _ _ _ | BLTU _ _ _ | BGEU _ _ _ => None
  end.

(** The link register and jump target of [JAL] (pc + offset) and [JALR]
    ((rs1 + offset) with bit 0 forced to 0). *)
Definition jump_spec (overflow_checks : bool) (i : Instruction) (p : Processor)
  : option (Register * Z) :=
  match i with
  | JAL rd offset =>
      option_map (fun t => (rd, t)) (add_i32 overflow_checks (pc p) offset)
  | JALR rd rs1 offset =>
      option_map (fun s => (rd, Z.land s (Z.lnot 1)))
        (add_i32 overflow_checks (Registers_index (registers p) rs1) offset)
  | _ => None
  end.

(** A conditional branch: its two source registers, its condition (signed
    or unsigned per mnemonic) and its offset. *)
Definition branch_spec (i : Instruction)
  : option (Register * Register * (Z -> Z -> bool) * Z) :=
  match i with
  | BEQ rs1 rs2 off => Some (rs1, rs2, fun a b => a =? b, off)
  | BNE rs1 rs2 off => Some (rs1, rs2, fun a b => negb (a =? b), off)
  | BLT rs1 rs2 off => Some (rs1, rs2, fun a b => a <? b, off)
  | BGE rs1 rs2 off => Some (rs1, rs2, fun a b => b <=? a, off)
  | BLTU rs1 rs2 off =>
      Some (rs1, rs2, fun a b => as_unsigned a <? as_unsigned b, off)
  | BGEU rs1 rs2 off =>
      Some (rs1, rs2, fun a b => as_unsigned b <=? as_unsigned a, off)
  | _ => None
  end.

(** The instructions that may raise [MisalignedInstructionFetch]: [JAL],
    [JALR], and a branch whose condition holds. *)
Definition may_misalign (i : Instruction) (p : Processor) : Prop :=
  match i with
  | JAL _ _ | JALR _ _ _ => True
  | _ =>
      match branch_spec i with
      | Some (rs1, rs2, cond, _) =>
          cond (Registers_index (registers p) rs1)
               (Registers_index (registers p) rs2) = true
      | None => False
      end
  end.

(** The private field [zero] of the [ZeroRegister] is only ever set by
    [Default], to 0. *)
Definition zero_register_ok (p : Processor) : Prop :=
  zero_cell (zero (registers p)) = 0.

(** ** Concrete processors *)

Definition processor_at (addr : Z) : Processor := set_pc Processor_default addr.

Definition with_csr (p : Processor) (index value : Z) : Processor :=
  set_csrs p (CSR32_update (csrs p) index value).

Definition with_reg (p : Processor) (r : Register) (value : Z) : Processor :=
  set_registers p (Registers_assign (registers p) r value).

(** The vocabulary of the spec: the low 12 bits read as a signed number,
    and the upper-part adjustment, 1 exactly when those are negative. *)
Definition sign_extend_12_spec (imm : Z) : Z :=
  let lo := imm mod 4096 in if 2048 <=? lo then lo - 4096 else lo.

Definition adjustment_spec (imm : Z) : Z :=
  if sign_extend_12_spec imm <? 0 then 1 else 0.

(** The fields of a word as the spec names them: bits [lo .. lo+width-1]. *)
Definition bits (w lo width : Z) : Z := Z.land (Z.shiftr w lo) (Z.ones width).

(** The implemented table of RV32I: an opcode alone, or an opcode with its
    funct3, further with funct7 (arithmetic register family) or funct6
    (shift-right-immediate family). *)
Inductive Row : Type :=
| Opcode (opcode : Z)
| OpcodeFunct3 (opcode funct3 : Z)
| OpcodeFunct3Funct7 (opcode funct3 funct7 : Z)
| OpcodeFunct3Funct6 (opcode funct3 funct6 : Z).

Definition row_matches (opcode funct3 funct7 funct6 : Z) (row : Row) : bool :=
  match row with
  | Opcode o => opcode =? o
  | OpcodeFunct3 o f3 => (opcode =? o) && (funct3 =? f3)
  | OpcodeFunct3Funct7 o f3 f7 => (opcode =? o) && (funct3 =? f3) && (funct7 =? f7)
  | OpcodeFunct3Funct6 o f3 f6 => (opcode =? o) && (funct3 =? f3) && (funct6 =? f6)
  end.

Definition implemented_rows : list Row :=
  [ Opcode 0x37 (* LUI *); Opcode 0x17 (* AUIPC *); Opcode 0x6F (* JAL *);
    OpcodeFunct3 0x67 0 (* JALR *);
    OpcodeFunct3 0x13 0 (* ADDI *); OpcodeFunct3 0x13 1 (* SLLI *);
    OpcodeFunct3 0x13 2 (* SLTI *); OpcodeFunct3 0x13 3 (* SLTIU *);
    OpcodeFunct3 0x13 4 (* XORI *); OpcodeFunct3 0x13 6 (* ORI *);
    OpcodeFunct3 0x13 7 (* ANDI *);
    OpcodeFunct3Funct6 0x13 5 0x00 (* SRLI *);
    OpcodeFunct3Funct6 0x13 5 0x10 (* SRAI *);
    OpcodeFunct3Funct7 0x33 0 0x00 (* ADD *); OpcodeFunct3Funct7 0x33 0 0x20 (* SUB *);
    OpcodeFunct3Funct7 0x33 1 0x00 (* SLL *); OpcodeFunct3Funct7 0x33 2 0x00 (* SLT *);
    OpcodeFunct3Funct7 0x33 3 0x00 (* SLTU *); OpcodeFunct3Funct7 0x33 4 0x00 (* XOR *);
    OpcodeFunct3Funct7 0x33 5 0x00 (* SRL *); OpcodeFunct3Funct7 0x33 5 0x20 (* SRA *);
    OpcodeFunct3Funct7 0x33 6 0x00 (* OR *); OpcodeFunct3Funct7 0x33 7 0x00 (* AND *);
    OpcodeFunct3 0x03 0 (* LB *); OpcodeFunct3 0x03 1 (* LH *);
    OpcodeFunct3 0x03 2 (* LW *); OpcodeFunct3 0x03 4 (* LBU *);
    OpcodeFunct3 0x03 5 (* LHU *);
    OpcodeFunct3 0x23 0 (* SB *); OpcodeFunct3 0x23 1 (* SH *);
    OpcodeFunct3 0x23 2 (* SW *);
    OpcodeFunct3 0x63 0 (* BEQ *); OpcodeFunct3 0x63 1 (* BNE *);
    OpcodeFunct3 0x63 4 (* BLT *); OpcodeFunct3 0x63 5 (* BGE *);
    OpcodeFunct3 0x63 6 (* BLTU *); OpcodeFunct3 0x63 7 (* BGEU *);
    OpcodeFunct3 0x73 1 (* CSRRW *); OpcodeFunct3 0x73 2 (* CSRRS *);
    OpcodeFunct3 0x73 3 (* CSRRC *); OpcodeFunct3 0x73 5 (* CSRRWI *);
    OpcodeFunct3 0x73 6 (* CSRRSI *); OpcodeFunct3 0x73 7 (* CSRRCI *) ].

Definition implemented (opcode funct3 funct7 funct6 : Z) : bool :=
  existsb (row_matches opcode funct3 funct7 funct6) implemented_rows.

(** The words of the spec for the fetch: the 4 bytes at [pc] (memory grown
    with zeros to hold them), read as a little-endian [u32]. *)
Definition fetch_address (p : Processor) : nat := Z.to_nat (as_unsigned (pc p)).

Definition fetch_memory (p : Processor) : Memory :=
  resize 4 (memory p) (fetch_address p).

Definition le_word (b0 b1 b2 b3 : Z) : Z :=
  wrap_u32 (b0 + 2 ^ 8 * b1 + 2 ^ 16 * b2 + 2 ^ 24 * b3).

Definition fetched_word (p : Processor) : Z :=
  let a := fetch_address p in
  let m := fetch_memory p in
  le_word (byte_at m a) (byte_at m (a + 1)) (byte_at m (a + 2)) (byte_at m (a + 3)).

(** A one-instruction program [ADDI A0, ZERO, 5] stored at address 0. *)
Definition addi_program : Processor :=
  set_memory Processor_default
    (store_word (memory Processor_default) 0 (encode (ADDI A0 ZERO 5))).

(** A read-modify-write of CSR cell [index]: it returns the value the cell
    held, the cell then reads [new_value], and every other cell reads as
    before. *)
Definition updates_cell (r : option (Z * CSR32)) (c : CSR32) (index new_value : Z)
  : Prop :=
  match r with
  | Some (old, c') =>
      CSR32_read c index = Some old /\ CSR32_read c' index = Some new_value /\
      forall j, j <> index -> CSR32_read c' j = CSR32_read c j
  | None => False
  end.

(** Instruction classes: the CSR instructions, the stores, and the
    instructions that may set [pc] elsewhere than the next instruction. *)
Definition is_csr_instruction (i : Instruction) : bool :=
  match i with
  | CSRRW _ _ _ | CSRRS _ _ _ | CSRRC _ _ _
  | CSRRWI _ _ _ | CSRRSI _ _ _ | CSRRCI _ _ _ => true
  | _ => false
  end.

Definition is_store (i : Instruction) : bool :=
  match i with
  | SB _ _ _ | SH _ _ _ | SW _ _ _ => true
  | _ => false
  end.

Definition is_control_flow (i : Instruction) : bool :=
  match i with
  | JAL _ _ | JALR _ _ _
  | BEQ _ _ _ | BNE _ _ _ | BLT _ _ _ | BGE _ _ _ | BLTU _ _ _ | BGEU _ _ _ => true
  | _ => false
  end.

(** The instructions whose fields fit their encoding: 12-bit signed
    immediates and offsets, 20-bit upper immediates, 6-bit shift amounts,
    12-bit CSR numbers and 5-bit CSR immediates.  [JAL] and the branches are
    left out. *)
Definition imm12_fits (v : Z) : bool := (-2048 <=? v) && (v <=? 2047).
Definition encodable (i : Instruction) : bool :=
  match i with
  | LUI _ imm | AUIPC _ imm => (0 <=? imm) && (imm <? 2 ^ 20)
  | ADDI _ _ imm | SLTI _ _ imm | SLTIU _ _ imm | XORI _ _ imm | ORI _ _ imm
  | ANDI _ _ imm => imm12_fits imm
  | SLLI _ _ shamt | SRLI _ _ shamt | SRAI _ _ shamt => (0 <=? shamt) && (shamt <? 64)
  | ADD _ _ _ | SUB _ _ _ | SLL _ _ _ | SLT _ _ _ | SLTU _ _ _ | XOR _ _ _
  | SRL _ _ _ | SRA _ _ _ | OR _ _ _ | AND _ _ _ => true
  | LB _ _ offset | LH _ _ offset | LW _ _ offset | LBU _ _ offset | LHU _ _ offset
  | SB _ _ offset | SH _ _ offset | SW _ _ offset | JALR _ _ offset => imm12_fits offset
  | CSRRW _ _ csr | CSRRS _ _ csr | CSRRC _ _ csr => (0 <=? csr) && (csr <? 4096)
  | CSRRWI _ csr imm | CSRRSI _ csr imm | CSRRCI _ csr imm =>
      (0 <=? csr) && (csr <? 4096) && (0 <=? imm) && (imm <? 32)
  | JAL _ _ | BEQ _ _ _ | BNE _ _ _ | BLT _ _ _ | BGE _ _ _ | BLTU _ _ _
  | BGEU _ _ _ => false
  end.

(** * Properties *)

Ltac unfold_monad :=
  cbv [execute execute_arm bind ret get put lift throw reg set_reg add
       csr_op csr_read mem_load mem_store effective_address].

(** ** Register file lemmas *)

Lemma Register_eqb_refl (r : Register) : Register_eqb r r = true.
Proof. destruct r; reflexivity. Qed.

(** Reading a register after [registers[rd] = value]: the write lands
    unless [rd] is [ZERO]. *)
Lemma Registers_index_assign (rs : Registers) (rd r : Register) (value : Z) :
  Registers_index (Registers_assign rs rd value) r =
    if Register_eqb r rd && negb (Register_eqb rd ZERO) then value
    else Registers_index rs r.
Proof. destruct rd, r; reflexivity. Qed.

Lemma zero_cell_assign (rs : Registers) (rd : Register) (value : Z) :
  zero_cell (zero (Registers_assign rs rd value)) = zero_cell (zero rs).
Proof. destruct rd; reflexivity. Qed.

(** ** Jumps: alignment is checked before the link register is written *)

(** C1 (counterexample): [JAL{rd: RA, offset: -42}] at [pc = 84] raises
    [MisalignedInstructionFetch] and leaves the processor untouched: [RA]
    stays 0 and is not updated to 88, in both build profiles. *)
Lemma jal_misaligned_does_not_link :
  execute true (JAL RA (-42)) (processor_at 84)
    = Throws MisalignedInstructionFetch (processor_at 84) /\
  execute false (JAL RA (-42)) (processor_at 84)
    = Throws MisalignedInstructionFetch (processor_at 84) /\
  Registers_index (registers (processor_at 84)) RA <> 88.
Proof. vm_compute. repeat split; discriminate. Qed.

(** C1 (amended): for [JAL] and [JALR], [execute] computes the return
    address [pc + 4] and the target (pc + offset for [JAL]; (rs1 + offset)
    with bit 0 forced to 0 for [JALR]) and checks that the target is a
    multiple of 4 BEFORE any write: when it is not, it returns
    [MisalignedInstructionFetch] with the processor unchanged (no link
    register write); when it is, it writes the return address to [rd]
    (through [IndexMut], so discarded for [ZERO]) and sets [pc] to the
    target. *)
Theorem jump_checks_alignment_before_link
    (overflow_checks : bool) (i : Instruction) (p : Processor)
    (rd : Register) (target next : Z)
    (Hjump : jump_spec overflow_checks i p = Some (rd, target))
    (Hnext : add_i32 overflow_checks (pc p) 4 = Some next) :
  execute overflow_checks i p =
    if Z.rem target 4 =? 0
    then Returns tt (set_pc (with_reg p rd next) target)
    else Throws MisalignedInstructionFetch p.
Proof.
  destruct i; simpl in Hjump; try discriminate.
  - destruct (add_i32 overflow_checks (pc p) offset) as [t|] eqn:Ht;
      simpl in Hjump; inversion Hjump; subst.
    unfold_monad. rewrite Hnext, Ht.
    destruct (Z.rem target 4 =? 0); reflexivity.
  - destruct (add_i32 overflow_checks (Registers_index (registers p) rs1) offset)
      as [s|] eqn:Hs; simpl in Hjump; inversion Hjump; subst.
    unfold_monad. rewrite Hnext, Hs.
    destruct (Z.rem (Z.land s (Z.lnot 1)) 4 =? 0); reflexivity.
Qed.

Lemma jump_checks_alignment_before_link_witness :
  jump_spec true (JAL RA 84) (processor_at 0) = Some (RA, 84) /\
  add_i32 true (pc (processor_at 0)) 4 = Some 4 /\
  execute true (JAL RA 84) (processor_at 0)
    = Returns tt (set_pc (with_reg (processor_at 0) RA 4) 84).
Proof.
  split; [reflexivity | split; [reflexivity |]].
  exact (jump_checks_alignment_before_link true (JAL RA 84) (processor_at 0)
           RA 84 4 eq_refl eq_refl).
Defined.

(** ** CSRRW *)

(** C2 (counterexample): [CSRRW{rd: A0, rs1: ZERO, csr: 20}] with [CSR[20]
    = 7] reads: [A0] receives 7, and [CSR[20]] keeps 7 instead of being
    overwritten with the value of [ZERO]. *)
Lemma csrrw_rs1_zero_only_reads :
  match execute true (CSRRW A0 ZERO 20) (with_csr Processor_default 20 7) with
  | Returns _ p' =>
      Registers_index (registers p') A0 = 7 /\ csr_cells (csrs p') 20 = 7 /\
      csr_cells (csrs p') 20 <> Registers_index (registers Processor_default) ZERO
  | _ => False
  end.
Proof. vm_compute. repeat split; discriminate. Qed.

(** C2 (amended): [CSRRW] with [rs1 = ZERO] only reads: [rd] receives the
    CSR value (discarded when [rd = ZERO]) and the CSR bank is unchanged.
    With [rs1 <> ZERO] the CSR cell receives [rs1]'s value and [rd] the
    old CSR value; when [rd = ZERO] only the CSR write is observable, the
    registers being unchanged.  Memory is untouched and [pc] advances by 4. *)
Theorem csrrw_reads_only_when_rs1_is_zero
    (overflow_checks : bool) (rd rs1 : Register) (csr : Z) (p : Processor)
    (next : Z)
    (Hnext : add_i32 overflow_checks (pc p) 4 = Some next)
    (Hcsr : csr < CSR_SIZE) :
  exists p',
    execute overflow_checks (CSRRW rd rs1 csr) p = Returns tt p' /\
    pc p' = next /\ memory p' = memory p /\
    (forall r, Registers_index (registers p') r =
       if Register_eqb r rd && negb (Register_eqb rd ZERO)
       then csr_cells (csrs p) csr
       else Registers_index (registers p) r) /\
    (forall j, csr_cells (csrs p') j =
       if (j =? csr) && negb (Register_eqb rs1 ZERO)
       then Registers_index (registers p) rs1
       else csr_cells (csrs p) j).
Proof.
  apply Z.ltb_lt in Hcsr.
  destruct rs1; unfold_monad; rewrite Hnext;
    cbv [CSR32_read CSR32_read_write]; rewrite Hcsr;
    (eexists; split; [reflexivity |]);
    cbv [CSR32_update set_pc set_registers set_csrs registers csrs memory pc];
    (split; [reflexivity | split; [reflexivity | split]]);
    intros; rewrite ?Registers_index_assign; try reflexivity;
    cbn [csr_cells andb negb Register_eqb]; destruct (_ =? csr); reflexivity.
Qed.

Lemma csrrw_reads_only_when_rs1_is_zero_witness :
  exists p',
    execute true (CSRRW A0 ZERO 20) (with_csr Processor_default 20 7)
      = Returns tt p' /\
    pc p' = 4 /\ memory p' = memory (with_csr Processor_default 20 7) /\
    (forall r, Registers_index (registers p') r =
       if Register_eqb r A0 && negb (Register_eqb A0 ZERO)
       then csr_cells (csrs (with_csr Processor_default 20 7)) 20
       else Registers_index (registers (with_csr Processor_default 20 7)) r) /\
    (forall j, csr_cells (csrs p') j =
       if (j =? 20) && negb (Register_eqb ZERO ZERO)
       then Registers_index (registers (with_csr Processor_default 20 7)) ZERO
       else csr_cells (csrs (with_csr Processor_default 20 7)) j).
Proof.
  apply (csrrw_reads_only_when_rs1_is_zero true A0 ZERO 20
           (with_csr Processor_default 20 7) 4);
    vm_compute; reflexivity.
Defined.

(** ** Branches: the offset, not the target, is checked *)

(** C4 (counterexample, a defect of the branch arms): the branch arms check
    [offset % 4] where the [JAL] and [JALR] arms check the target
    [pc + offset].  At [pc = 2], the taken [BEQ{ZERO, ZERO, 4}] jumps to
    the misaligned target 6 without error, and the taken
    [BEQ{ZERO, ZERO, 2}] raises [MisalignedInstructionFetch] although its
    target 4 is aligned; at the same [pc], [JAL{ZERO, 2}] reaches the
    aligned target 4 and [JAL{ZERO, 4}] is refused for its target 6. *)
Lemma branch_target_alignment_not_checked :
  execute true (BEQ ZERO ZERO 4) (processor_at 2)
    = Returns tt (processor_at 6) /\ Z.rem 6 4 <> 0 /\
  execute true (BEQ ZERO ZERO 2) (processor_at 2)
    = Throws MisalignedInstructionFetch (processor_at 2) /\ Z.rem 4 4 = 0 /\
  match execute true (JAL ZERO 2) (processor_at 2) with
  | Returns _ p' => pc p' = 4
  | _ => False
  end /\
  execute true (JAL ZERO 4) (processor_at 2)
    = Throws MisalignedInstructionFetch (processor_at 2).
Proof. vm_compute. repeat split; discriminate. Qed.

Lemma Z_geb_leb' (a b : Z) : (a >=? b) = (b <=? a).
Proof. apply Z.geb_leb. Qed.

(** ** Atomicity of errors *)

(** C10: whenever [execute] returns an error, it is
    [MisalignedInstructionFetch], raised by [JAL], [JALR] or a taken branch,
    and the processor (registers, [pc], CSR bank, memory) is exactly the one
    before the call. *)
Theorem execute_error_is_atomic
    (overflow_checks : bool) (i : Instruction) (p p' : Processor)
    (e : Exception)
    (H : execute overflow_checks i p = Throws e p') :
  p' = p /\ e = MisalignedInstructionFetch /\ may_misalign i p.
Proof.
  revert H; destruct i; unfold_monad; intros H;
    repeat (match type of H with
            | context [match ?x with _ => _ end] =>
                lazymatch x with
                | context [match _ with _ => _ end] => fail
                | _ => destruct x eqn:?
                end
            end; try discriminate H);
    try discriminate H; injection H as <- <-;
    rewrite ?Z_geb_leb' in *;
    cbv beta iota delta [may_misalign branch_spec]; auto.
Qed.

Lemma execute_error_is_atomic_witness :
  processor_at 84 = processor_at 84 /\
  MisalignedInstructionFetch = MisalignedInstructionFetch /\
  may_misalign (JAL RA (-42)) (processor_at 84).
Proof.
  apply (execute_error_is_atomic true (JAL RA (-42)) (processor_at 84)
           (processor_at 84) MisalignedInstructionFetch).
  vm_compute. reflexivity.
Defined.

(** ** Shifts *)

(** C5 (failing input): [SLLI{rd: A0, rs1: A1, shamt: 32}], the decoding of
    the word [0x02059513], is not masked to 5 bits: with overflow checks on
    (the debug and test profiles) it panics, whereas the register form
    [SLL] with [rs2 = 32] masks the amount to 0 and copies [A1].  Without
    overflow checks the immediate form happens to mask as well. *)
Theorem slli_shamt_not_masked :
  decode 0x02059513 = Some (Ok (SLLI A0 A1 32)) /\
  execute true (SLLI A0 A1 32) (with_reg Processor_default A1 1) = Panics /\
  match execute true (SLL A0 A1 A2)
          (with_reg (with_reg Processor_default A1 1) A2 32) with
  | Returns _ p' => Registers_index (registers p') A0 = 1
  | _ => False
  end /\
  match execute false (SLLI A0 A1 32) (with_reg Processor_default A1 1) with
  | Returns _ p' => Registers_index (registers p') A0 = 1
  | _ => False
  end.
Proof. vm_compute. repeat split. Qed.

(** ** Decode/encode round trip *)

(** C3 (failing input): the word [0x40001013] (opcode [0x13], funct3 1, the
    [funct7] bits set to [0x20]) decodes to [SLLI{ZERO, ZERO, 0}] because the
    SLLI arm does not inspect [funct7]; re-encoding gives [0x1013].  Its
    siblings reject the analogous words: [0x40001033] ([OP], funct3 1,
    funct7 [0x20]) is unimplemented. *)
Theorem slli_decode_encode_not_bit_exact :
  decode 0x40001013 = Some (Ok (SLLI ZERO ZERO 0)) /\
  encode (SLLI ZERO ZERO 0) = 0x1013 /\
  0x1013 <> 0x40001013 /\
  decode 0x40001033 = Some (Err (UnimplementedInstruction 0x40001033)).
Proof. vm_compute. repeat split; discriminate. Qed.

(** ** Register 0 *)

Lemma Processor_default_zero_register_ok : zero_register_ok Processor_default.
Proof. reflexivity. Qed.

(** No instruction touches the field [zero] of [ZeroRegister]: writes to
    register 0 land in [_zero]. *)
Lemma execute_keeps_zero_cell
    (overflow_checks : bool) (i : Instruction) (p p' : Processor)
    (H : (exists u, execute overflow_checks i p = Returns u p') \/
         (exists e, execute overflow_checks i p = Throws e p')) :
  zero_cell (zero (registers p')) = zero_cell (zero (registers p)).
Proof.
  destruct H as [[u H] | [e H]]; revert H; destruct i; unfold_monad; intros H;
    repeat (match type of H with
            | context [match ?x with _ => _ end] =>
                lazymatch x with
                | context [match _ with _ => _ end] => fail
                | _ => destruct x eqn:?
                end
            end; try discriminate H);
    try discriminate H; injection H as _ <-;
    cbn [registers set_pc set_registers set_csrs set_memory];
    rewrite ?zero_cell_assign; reflexivity.
Qed.

(** C6: register 0 reads 0 after executing any instruction (in particular
    one with [rd = ZERO]), whether execution returns or raises, through
    [Register::ZERO] as through the raw index 0, starting from a state
    whose register 0 reads 0 (as [Processor_default] does). *)
Theorem zero_register_reads_zero
    (overflow_checks : bool) (i : Instruction) (p p' : Processor)
    (Hok : zero_register_ok p)
    (Hrun : (exists u, execute overflow_checks i p = Returns u p') \/
            (exists e, execute overflow_checks i p = Throws e p')) :
  Registers_index (registers p') ZERO = 0 /\
  Registers_index_u8 (registers p') 0 = Some 0.
Proof.
  pose proof (execute_keeps_zero_cell overflow_checks i p p' Hrun) as Hz.
  unfold zero_register_ok in Hok. rewrite Hok in Hz.
  split; [exact Hz |].
  cbv [Registers_index_u8 Register_const_from option_map Registers_index].
  cbn. rewrite Hz. reflexivity.
Qed.

Lemma zero_register_reads_zero_witness :
  Registers_index (registers (set_pc (with_reg Processor_default ZERO 5) 4)) ZERO = 0 /\
  Registers_index_u8 (registers (set_pc (with_reg Processor_default ZERO 5) 4)) 0 = Some 0.
Proof.
  apply (zero_register_reads_zero true (ADDI ZERO ZERO 5) Processor_default
           (set_pc (with_reg Processor_default ZERO 5) 4)).
  - reflexivity.
  - left. exists tt. vm_compute. reflexivity.
Defined.

(** ** The LI pseudoinstruction *)

Lemma Z_land_low12 (v m : Z) (Hm : Z.land 0xFFF m = m) :
  Z.land v m = Z.land (v mod 4096) m.
Proof.
  replace (v mod 4096) with (Z.land v (Z.ones 12))
    by (rewrite Z.land_ones by lia; reflexivity).
  rewrite <- Z.land_assoc. change (Z.ones 12) with 0xFFF. now rewrite Hm.
Qed.

Lemma is_positive_low12 (v : Z) :
  i12.is_positive v = i12.is_positive (v mod 4096).
Proof.
  unfold i12.is_positive. now rewrite (Z_land_low12 v 0x800) by reflexivity.
Qed.

Lemma sign_extend_low12 (v : Z) :
  i12.sign_extend v = i12.sign_extend (v mod 4096).
Proof.
  unfold i12.sign_extend. rewrite is_positive_low12.
  now rewrite (Z_land_low12 v 0x7FF), (Z_land_low12 v 0xFFF) by reflexivity.
Qed.

(** The 4096 values of the low 12 bits, checked one by one. *)
Lemma i12_low12_exhaustive :
  forallb (fun n : nat =>
             let lo := Z.of_nat n in
             (i12.sign_extend lo =? sign_extend_12_spec lo) &&
             (with_signed_i12_adjustment lo =? adjustment_spec lo))
          (seq 0 4096) = true.
Proof. vm_compute. reflexivity. Qed.

Lemma i12_low12 (lo : Z) (Hlo : 0 <= lo < 4096) :
  i12.sign_extend lo = sign_extend_12_spec lo /\
  with_signed_i12_adjustment lo = adjustment_spec lo.
Proof.
  pose proof i12_low12_exhaustive as Hall.
  rewrite forallb_forall in Hall.
  specialize (Hall (Z.to_nat lo)).
  rewrite in_seq, Z2Nat.id in Hall by lia.
  destruct (andb_prop _ _ (Hall ltac:(lia))) as [H1 H2].
  split; apply Z.eqb_eq; assumption.
Qed.

Lemma sign_extend_12_spec_low12 (v : Z) :
  sign_extend_12_spec v = sign_extend_12_spec (v mod 4096).
Proof. unfold sign_extend_12_spec. now rewrite Z.mod_mod by lia. Qed.

Lemma sign_extend_agrees (v : Z) : i12.sign_extend v = sign_extend_12_spec v.
Proof.
  rewrite sign_extend_low12, sign_extend_12_spec_low12.
  apply i12_low12, Z.mod_pos_bound. lia.
Qed.

Lemma adjustment_agrees (v : Z) :
  with_signed_i12_adjustment v = adjustment_spec v.
Proof.
  unfold with_signed_i12_adjustment, adjustment_spec.
  rewrite is_positive_low12, sign_extend_12_spec_low12.
  pose proof (i12_low12 (v mod 4096) (Z.mod_pos_bound v 4096 ltac:(lia)))
    as [_ H]. exact H.
Qed.

Lemma adjustment_range (v : Z) : 0 <= adjustment_spec v <= 1.
Proof. unfold adjustment_spec. destruct (_ <? 0); lia. Qed.

(** C8: for a 32-bit immediate, [LI(rd, imm)] is one [ADDI rd, ZERO, imm]
    when [-2048 <= imm <= 2047], and otherwise exactly
    [LUI rd, (imm >> 12) + adjustment] then [ADDI rd, rd, sign_extend_12(imm)],
    the adjustment being 1 exactly when the low 12 bits read as signed are
    negative.  The upper addition never overflows. *)
Theorem li_expansion (overflow_checks : bool) (rd : Register) (imm : Z)
    (Himm : in_i32 imm = true) :
  LI overflow_checks rd imm =
    Some (if (-2048 <=? imm) && (imm <=? 2047)
          then One (ADDI rd ZERO imm)
          else Two (LUI rd (Z.shiftr imm 12 + adjustment_spec imm))
                   (ADDI rd rd (sign_extend_12_spec imm))).
Proof.
  unfold in_i32 in Himm. apply andb_prop in Himm as [H1 H2].
  apply Z.leb_le in H1. apply Z.ltb_lt in H2.
  unfold LI. rewrite Z.geb_leb. change i12.MIN with (-2048).
  change i12.MAX with 2047.
  destruct ((-2048 <=? imm) && (imm <=? 2047)) eqn:Hfit.
  - apply andb_prop in Hfit as [F1 F2].
    apply Z.leb_le in F1. apply Z.leb_le in F2.
    unfold wrap_i16. rewrite Z.mod_small by lia.
    do 3 f_equal. lia.
  - unfold ImmU_RSHIFT. rewrite adjustment_agrees, sign_extend_agrees.
    rewrite Z.shiftr_div_pow2 by lia. change (2 ^ 12) with 4096.
    pose proof (adjustment_range imm).
    pose proof (Z.div_mod imm 4096 ltac:(lia)).
    pose proof (Z.mod_pos_bound imm 4096 ltac:(lia)).
    unfold add_i32, in_i32, wrap_i32.
    set (q := imm / 4096) in *.
    assert (Hin : ((- 2 ^ 31 <=? q + adjustment_spec imm) &&
                   (q + adjustment_spec imm <? 2 ^ 31)) = true).
    { apply andb_true_intro. split; [apply Z.leb_le | apply Z.ltb_lt]; lia. }
    rewrite Hin, andb_false_r.
    rewrite Z.mod_small by lia.
    do 3 f_equal. lia.
Qed.

Lemma li_expansion_witness :
  LI true A0 0x12345678 =
    Some (if (-2048 <=? 0x12345678) && (0x12345678 <=? 2047)
          then One (ADDI A0 ZERO 0x12345678)
          else Two (LUI A0 (Z.shiftr 0x12345678 12 + adjustment_spec 0x12345678))
                   (ADDI A0 A0 (sign_extend_12_spec 0x12345678))).
Proof. apply (li_expansion true A0 0x12345678). reflexivity. Defined.

(** The two expansions named by the spec: [LI(rd, -2048)] is one [ADDI],
    [LI(rd, 0x12345678)] is [LUI rd, 0x12345] then [ADDI rd, rd, 0x678]. *)
Lemma li_scenarios :
  LI true A0 (-2048) = Some (One (ADDI A0 ZERO (-2048))) /\
  LI true A0 0x12345678 = Some (Two (LUI A0 0x12345) (ADDI A0 A0 0x678)).
Proof. split; reflexivity. Qed.

(** ** Decode is total *)

Lemma Register_const_from_mod (v : Z) :
  Register_const_from v = Register_const_from (v mod 32).
Proof.
  unfold Register_const_from.
  change 31 with (Z.ones 5). rewrite !Z.land_ones by lia.
  now rewrite Z.mod_mod by lia.
Qed.

Lemma Register_const_from_exhaustive :
  forallb (fun n : nat =>
             match Register_const_from (Z.of_nat n) with
             | Some _ => true | None => false end) (seq 0 32) = true.
Proof. vm_compute. reflexivity. Qed.

(** [Register::const_from] masks its argument to 5 bits: it never fails. *)
Lemma Register_const_from_total (v : Z) :
  exists r, Register_const_from v = Some r.
Proof.
  rewrite Register_const_from_mod.
  pose proof (Z.mod_pos_bound v 32 ltac:(lia)) as Hb.
  pose proof Register_const_from_exhaustive as Hall.
  rewrite forallb_forall in Hall.
  specialize (Hall (Z.to_nat (v mod 32))).
  rewrite in_seq, Z2Nat.id in Hall by lia.
  specialize (Hall ltac:(lia)).
  destruct (Register_const_from (v mod 32)) as [r |]; [now exists r | discriminate].
Qed.

Lemma op_code_bits (w : Z) : op_code w = bits w 0 7.
Proof. unfold op_code, bits. now rewrite Z.shiftr_0_r. Qed.

Lemma Funct3_bits (w : Z) : Funct3_decode w = bits w 12 3.
Proof. unfold Funct3_decode, bits. now rewrite Z.shiftr_land. Qed.

Lemma high_bits_small (w n width : Z) (Hw : 0 <= w < 2 ^ 32)
    (Hn : 0 <= n) (Hwidth : 0 <= width) (H : n + width = 32) :
  0 <= Z.shiftr w n < 2 ^ width.
Proof.
  rewrite Z.shiftr_div_pow2 by lia. split.
  - apply Z.div_pos; lia.
  - apply Z.div_lt_upper_bound; [lia |].
    rewrite <- Z.pow_add_r by lia. now rewrite H.
Qed.

Lemma Funct7_bits (w : Z) (Hw : 0 <= w < 2 ^ 32) :
  Funct7_decode w = bits w 25 7.
Proof.
  unfold Funct7_decode, wrap_u8, bits. rewrite Z.land_ones by lia.
  pose proof (high_bits_small w 25 7 Hw ltac:(lia) ltac:(lia) eq_refl).
  rewrite !Z.mod_small; lia.
Qed.

Lemma Funct6_bits (w : Z) (Hw : 0 <= w < 2 ^ 32) :
  Funct6_decode w = bits w 26 6.
Proof.
  unfold Funct6_decode, wrap_u8, bits. rewrite Z.land_ones by lia.
  pose proof (high_bits_small w 26 6 Hw ltac:(lia) ltac:(lia) eq_refl).
  rewrite !Z.mod_small; lia.
Qed.

(** Case analysis on the field values a goal is stuck on. *)
Ltac case_stuck :=
  match goal with
  | |- context [match ?x with _ => _ end] => is_var x; destruct x
  | |- context [Z.eqb ?x _] => is_var x; destruct x
  | |- context [Pos.eqb ?x _] => is_var x; destruct x
  end.

Ltac decide_table :=
  cbn; first [ solve [split; reflexivity | reflexivity] | case_stuck; decide_table ].

(** C7: [decode] is total on [u32]: it never panics (never [None]); it
    returns [Ok] exactly when the (opcode, funct3, funct7 / funct6) fields
    of the word are in the implemented table, and otherwise fails with
    [UnimplementedInstruction] carrying the word itself. *)
Theorem decode_total (w : Z) (Hw : 0 <= w < 2 ^ 32) :
  match decode w with
  | Some (Ok _) =>
      implemented (bits w 0 7) (bits w 12 3) (bits w 25 7) (bits w 26 6) = true
  | Some (Err e) =>
      e = UnimplementedInstruction w /\
      implemented (bits w 0 7) (bits w 12 3) (bits w 25 7) (bits w 26 6) = false
  | None => False
  end.
Proof.
  rewrite <- op_code_bits, <- Funct3_bits, <- Funct7_bits, <- Funct6_bits
    by exact Hw.
  destruct (Register_const_from_total (Z.shiftr (Z.land w 0xF80) 7)) as [rd Hrd].
  destruct (Register_const_from_total (Z.shiftr (Z.land w 0xF8000) 15))
    as [rs1 Hrs1].
  destruct (Register_const_from_total (Z.shiftr (Z.land w 0x1F00000) 20))
    as [rs2 Hrs2].
  unfold decode, Rd_decode, Rs1_decode, Rs2_decode. rewrite Hrd, Hrs1, Hrs2.
  generalize (op_code w) (Funct3_decode w) (Funct7_decode w) (Funct6_decode w).
  intros o f3 f7 f6.
  unfold implemented, implemented_rows.
  decide_table.
Qed.

Lemma decode_total_witness :
  match decode 0x40001033 with
  | Some (Ok _) =>
      implemented (bits 0x40001033 0 7) (bits 0x40001033 12 3)
                  (bits 0x40001033 25 7) (bits 0x40001033 26 6) = true
  | Some (Err e) =>
      e = UnimplementedInstruction 0x40001033 /\
      implemented (bits 0x40001033 0 7) (bits 0x40001033 12 3)
                  (bits 0x40001033 25 7) (bits 0x40001033 26 6) = false
  | None => False
  end.
Proof. apply (decode_total 0x40001033). lia. Defined.

(** ** The step of the processor *)

Ltac decide_some :=
  cbn; first [ exact I | case_stuck; decide_some ].

(** [decode] never panics: the register fields are masked to 5 bits. *)
Lemma decode_some (w : Z) : exists r, decode w = Some r.
Proof.
  cut (match decode w with Some _ => True | None => False end).
  { destruct (decode w) as [r |]; [now exists r | contradiction]. }
  destruct (Register_const_from_total (Z.shiftr (Z.land w 0xF80) 7)) as [rd Hrd].
  destruct (Register_const_from_total (Z.shiftr (Z.land w 0xF8000) 15))
    as [rs1 Hrs1].
  destruct (Register_const_from_total (Z.shiftr (Z.land w 0x1F00000) 20))
    as [rs2 Hrs2].
  unfold decode, Rd_decode, Rs1_decode, Rs2_decode. rewrite Hrd, Hrs1, Hrs2.
  generalize (op_code w) (Funct3_decode w) (Funct7_decode w) (Funct6_decode w).
  intros o f3 f7 f6.
  decide_some.
Qed.

Lemma wrap_u32_wrap_i32 (x : Z) : wrap_u32 (wrap_i32 x) = wrap_u32 x.
Proof.
  unfold wrap_u32, wrap_i32. rewrite Zminus_mod_idemp_l. f_equal. lia.
Qed.

Lemma fetch_spec (p : Processor) :
  fetch p = Returns (fetched_word p) (set_memory p (fetch_memory p)).
Proof.
  unfold fetch, bind, get, mem_load, ret, load_word, fetched_word,
    fetch_memory, fetch_address, le_word.
  cbn zeta. now rewrite wrap_u32_wrap_i32.
Qed.

(** C9: from a non-halted status, [step] fetches the little-endian word at
    [pc], decodes it (never panicking), and executes it on the processor:
    an [Exception] from [decode] or from [execute] moves to Halted, a
    normal return to Running with the processor (and so the [pc]) that
    [execute] produced; Halted is terminal.  A panic of [execute] (an [i32]
    overflow under overflow checks) is [None]. *)
Theorem step_fetch_decode_execute (overflow_checks : bool) (s : Status)
    (p : Processor) (Hs : s <> Halted) :
  (exists r,
     decode (fetched_word p) = Some r /\
     step overflow_checks s p =
       match r with
       | Ok i =>
           match execute overflow_checks i (set_memory p (fetch_memory p)) with
           | Returns _ p' => Some (Running, p')
           | Throws _ p' => Some (Halted, p')
           | Panics => None
           end
       | Err _ => Some (Halted, set_memory p (fetch_memory p))
       end) /\
  (forall q, step overflow_checks Halted q = Some (Halted, q)).
Proof.
  split; [| reflexivity].
  destruct (decode_some (fetched_word p)) as [r Hr].
  exists r. split; [exact Hr |].
  destruct s; [| | contradiction];
    unfold step; cbv [bind]; rewrite fetch_spec; cbv [lift throw];
    rewrite Hr; destruct r; try reflexivity;
    destruct (execute overflow_checks _ _); reflexivity.
Qed.

Lemma step_fetch_decode_execute_witness :
  (exists r,
     decode (fetched_word addi_program) = Some r /\
     step true Ready addi_program =
       match r with
       | Ok i =>
           match execute true i (set_memory addi_program (fetch_memory addi_program)) with
           | Returns _ p' => Some (Running, p')
           | Throws _ p' => Some (Halted, p')
           | Panics => None
           end
       | Err _ => Some (Halted, set_memory addi_program (fetch_memory addi_program))
       end) /\
  (forall q, step true Halted q = Some (Halted, q)).
Proof.
  apply (step_fetch_decode_execute true Ready addi_program). discriminate.
Defined.

(** Running the program: the [ADDI] executes (Running, [A0 = 5], [pc = 4]);
    the next word is 0, whose opcode is unimplemented, and the processor
    halts with [pc] still 4. *)
Lemma addi_program_runs :
  match step true Ready addi_program with
  | Some (Running, p1) =>
      Registers_index (registers p1) A0 = 5 /\ pc p1 = 4 /\
      match step true Running p1 with
      | Some (Halted, p2) => pc p2 = 4 /\ decode (fetched_word p1)
                               = Some (Err (UnimplementedInstruction 0))
      | _ => False
      end
  | _ => False
  end.
Proof. vm_compute. repeat split. Qed.

(** * Further properties of the code *)

(** ** The pseudoinstruction iterator *)

(** X: [next] takes the items from the front, [next_back] from the back,
    both return [None] (leaving [Zero]) once the items are used up, and
    [size_hint] is exact: the number of items left. *)
Theorem iterator_pops_items (it : PseudoinstructionMappingIter) :
  match items it with
  | [] => next it = (None, Zero) /\ next_back it = (None, Zero)
  | i :: rest =>
      fst (next it) = Some i /\ items (snd (next it)) = rest /\
      fst (next_back it) = Some (last (items it) i) /\
      items (snd (next_back it)) = removelast (items it)
  end /\
  size_hint it = (Z.of_nat (length (items it)), Some (Z.of_nat (length (items it)))).
Proof. destruct it; repeat split. Qed.

(** ** Indexing the register file by number *)

Lemma Register_const_from_index (r : Register) :
  Register_const_from (Register_index r) = Some r.
Proof. destruct r; reflexivity. Qed.

Lemma Register_const_from_small :
  forallb (fun n : nat =>
             match Register_const_from (Z.of_nat n) with
             | Some r => Register_index r =? Z.of_nat n | None => false end)
          (seq 0 32) = true.
Proof. vm_compute. reflexivity. Qed.

Lemma Register_index_onto (n : Z) (Hn : 0 <= n < 32) :
  exists r, Register_const_from n = Some r /\ Register_index r = n.
Proof.
  pose proof Register_const_from_small as Hall.
  rewrite forallb_forall in Hall.
  specialize (Hall (Z.to_nat n)).
  rewrite in_seq, Z2Nat.id in Hall by lia.
  specialize (Hall ltac:(lia)).
  destruct (Register_const_from n) as [r |]; [| discriminate].
  exists r. split; [reflexivity | now apply Z.eqb_eq].
Qed.

(** X: [Index<u8>] and [IndexMut<u8>] at a number below 32 read and write
    the register with that discriminant, exactly as [Index<Register>] and
    [IndexMut<Register>] do (0 included); any other [u8] panics. *)
Theorem registers_u8_index (rs : Registers) (n value : Z) (Hn : 0 <= n < 256) :
  if n <? 32 then
    exists r, Register_index r = n /\
      Registers_index_u8 rs n = Some (Registers_index rs r) /\
      Registers_assign_u8 rs n value = Some (Registers_assign rs r value)
  else Registers_index_u8 rs n = None /\ Registers_assign_u8 rs n value = None.
Proof.
  unfold Registers_index_u8, Registers_assign_u8.
  destruct (Z.ltb_spec n 32) as [Hlt | Hge].
  - destruct (Register_index_onto n ltac:(lia)) as [r [Hr Hi]].
    exists r. rewrite Hr.
    replace (0 <=? n) with true by (symmetry; apply Z.leb_le; lia).
    split; [exact Hi | split; reflexivity].
  - rewrite andb_false_r.
    split; reflexivity.
Qed.

Lemma registers_u8_index_witness :
  (if 10 <? 32 then
    exists r, Register_index r = 10 /\
      Registers_index_u8 Registers_default 10 = Some (Registers_index Registers_default r) /\
      Registers_assign_u8 Registers_default 10 7 = Some (Registers_assign Registers_default r 7)
  else Registers_index_u8 Registers_default 10 = None /\
       Registers_assign_u8 Registers_default 10 7 = None) /\
  (if 32 <? 32 then
    exists r, Register_index r = 32 /\
      Registers_index_u8 Registers_default 32 = Some (Registers_index Registers_default r) /\
      Registers_assign_u8 Registers_default 32 7 = Some (Registers_assign Registers_default r 7)
  else Registers_index_u8 Registers_default 32 = None /\
       Registers_assign_u8 Registers_default 32 7 = None).
Proof.
  split.
  - apply (registers_u8_index Registers_default 10 7). lia.
  - apply (registers_u8_index Registers_default 32 7). lia.
Defined.

(** ** The CSR bank *)

(** X: below [CSR_SIZE], [read_write] swaps in the new value, [set_bits]
    ORs it into the cell and [clear_bits] clears its bits; each returns the
    cell's old value and leaves every other cell as it was. *)
Theorem csr_bank_updates (c : CSR32) (index value : Z) (H : index < CSR_SIZE) :
  updates_cell (CSR32_read_write c index value) c index value /\
  updates_cell (CSR32_set_bits c index value) c index
    (Z.lor (csr_cells c index) value) /\
  updates_cell (CSR32_clear_bits c index value) c index
    (Z.land (csr_cells c index) (Z.lnot value)).
Proof.
  unfold updates_cell, CSR32_read_write, CSR32_set_bits, CSR32_clear_bits,
    CSR32_read, CSR32_update.
  apply Z.ltb_lt in H. rewrite H. cbn [csr_cells]. rewrite Z.eqb_refl.
  repeat split; intros j Hj;
    destruct (j <? CSR_SIZE); [| reflexivity | | reflexivity | | reflexivity];
    apply Z.eqb_neq in Hj; rewrite Hj; reflexivity.
Qed.

Lemma csr_bank_updates_witness :
  updates_cell (CSR32_read_write CSR32_default 0x300 5) CSR32_default 0x300 5 /\
  updates_cell (CSR32_set_bits CSR32_default 0x300 5) CSR32_default 0x300
    (Z.lor (csr_cells CSR32_default 0x300) 5) /\
  updates_cell (CSR32_clear_bits CSR32_default 0x300 5) CSR32_default 0x300
    (Z.land (csr_cells CSR32_default 0x300) (Z.lnot 5)).
Proof. apply (csr_bank_updates CSR32_default 0x300 5). vm_compute. reflexivity. Defined.

(** X: a CSR instruction whose CSR number is [CSR_SIZE] or more (the
    [u16] field allows up to 65535; [decode] never produces one) panics on
    the slice bound, in both build profiles, rather than raising an
    [Exception]. *)
Theorem csr_out_of_range_panics (overflow_checks : bool) (p : Processor)
    (rd rs1 : Register) (csr imm : Z) (H : CSR_SIZE <= csr) :
  execute overflow_checks (CSRRW rd rs1 csr) p = Panics /\
  execute overflow_checks (CSRRS rd rs1 csr) p = Panics /\
  execute overflow_checks (CSRRC rd rs1 csr) p = Panics /\
  execute overflow_checks (CSRRWI rd csr imm) p = Panics /\
  execute overflow_checks (CSRRSI rd csr imm) p = Panics /\
  execute overflow_checks (CSRRCI rd csr imm) p = Panics.
Proof.
  assert (Hb : (csr <? CSR_SIZE) = false) by (apply Z.ltb_ge; exact H).
  unfold_monad.
  cbv [CSR32_read CSR32_read_write CSR32_set_bits CSR32_clear_bits].
  rewrite Hb.
  destruct (add_i32 overflow_checks (pc p) 4); [| repeat split].
  destruct rs1; repeat split.
Qed.

Lemma csr_out_of_range_panics_witness :
  execute true (CSRRW A0 A1 4096) Processor_default = Panics /\
  execute true (CSRRS A0 A1 4096) Processor_default = Panics /\
  execute true (CSRRC A0 A1 4096) Processor_default = Panics /\
  execute true (CSRRWI A0 4096 3) Processor_default = Panics /\
  execute true (CSRRSI A0 4096 3) Processor_default = Panics /\
  execute true (CSRRCI A0 4096 3) Processor_default = Panics.
Proof. apply (csr_out_of_range_panics true Processor_default A0 A1 4096 3). vm_compute. discriminate. Defined.

(** ** Running pseudoinstructions *)

Lemma execute_mapping_items (overflow_checks : bool) (it : PseudoinstructionMappingIter)
    (p : Processor) :
  execute_mapping overflow_checks it p =
    fold_right (fun i k => bind (execute overflow_checks i) (fun _ => k)) (ret tt)
               (items it) p.
Proof. destruct it; reflexivity. Qed.

Lemma execute_mapping_One (overflow_checks : bool) (i : Instruction) (p : Processor) :
  execute_mapping overflow_checks (One i) p = execute overflow_checks i p.
Proof.
  rewrite execute_mapping_items. cbn [items fold_right]. unfold bind, ret.
  destruct (execute overflow_checks i p) as [[] p' | e p' |]; reflexivity.
Qed.

Lemma zero_reads_zero (p : Processor) (Hok : zero_register_ok p) :
  Registers_index (registers p) ZERO = 0.
Proof. exact Hok. Qed.

Lemma in_i32_bounds (x : Z) : in_i32 x = true <-> - 2 ^ 31 <= x < 2 ^ 31.
Proof.
  unfold in_i32. rewrite andb_true_iff, Z.leb_le, Z.ltb_lt. reflexivity.
Qed.

Lemma wrap_i32_id (x : Z) (Hx : in_i32 x = true) : wrap_i32 x = x.
Proof.
  apply in_i32_bounds in Hx. unfold wrap_i32.
  rewrite Z.mod_small by lia. lia.
Qed.

Lemma as_unsigned_i32 (x : Z) (Hx : in_i32 x = true) :
  as_unsigned x = if x <? 0 then x + 2 ^ 32 else x.
Proof.
  apply in_i32_bounds in Hx. unfold as_unsigned, wrap_u32.
  destruct (Z.ltb_spec x 0).
  - rewrite <- (Z.mod_add x 1 (2 ^ 32)) by lia. rewrite Z.mod_small; lia.
  - rewrite Z.mod_small; lia.
Qed.

Lemma sltiu_one (x : Z) (Hx : in_i32 x = true) :
  (as_unsigned x <? as_unsigned 1) = (x =? 0).
Proof.
  rewrite as_unsigned_i32 by exact Hx. change (as_unsigned 1) with 1.
  apply in_i32_bounds in Hx.
  destruct (Z.ltb_spec x 0); destruct (Z.eqb_spec x 0);
    [lia | apply Z.ltb_ge; lia | subst; reflexivity | apply Z.ltb_ge; lia].
Qed.

Lemma sltu_zero (x : Z) (Hx : in_i32 x = true) :
  (as_unsigned 0 <? as_unsigned x) = negb (x =? 0).
Proof.
  change (as_unsigned 0) with 0. rewrite as_unsigned_i32 by exact Hx.
  apply in_i32_bounds in Hx.
  destruct (Z.ltb_spec x 0); destruct (Z.eqb_spec x 0);
    [lia | apply Z.ltb_lt; lia | subst; reflexivity | apply Z.ltb_lt; lia].
Qed.

(** X: the one-instruction register pseudoinstructions compute what their
    names say on an [i32] source value [x]: [NOT] writes [!x], [NEG] the
    wrapping [0 - x], [MOV] [x], [SEQZ] [x == 0], [SNEZ] [x != 0], [SLTZ]
    [x < 0], [SGLZ] [x > 0] (as 1 or 0), and [NOP] only advances [pc];
    nothing else changes but [pc], which moves to the next instruction. *)
Theorem register_pseudoinstructions (overflow_checks : bool) (p : Processor)
    (rd rs : Register) (next : Z)
    (Hok : zero_register_ok p)
    (Hx : in_i32 (Registers_index (registers p) rs) = true)
    (Hnext : add_i32 overflow_checks (pc p) 4 = Some next) :
  let x := Registers_index (registers p) rs in
  let runs it v := execute_mapping overflow_checks it p
                     = Returns tt (set_pc (with_reg p rd v) next) in
  runs (Pseudo.NOT rd rs) (Z.lnot x) /\
  runs (Pseudo.NEG rd rs) (wrapping_sub 0 x) /\
  runs (Pseudo.MOV rd rs) x /\
  runs (Pseudo.SEQZ rd rs) (Z.b2z (x =? 0)) /\
  runs (Pseudo.SNEZ rd rs) (Z.b2z (negb (x =? 0))) /\
  runs (Pseudo.SLTZ rd rs) (Z.b2z (x <? 0)) /\
  runs (Pseudo.SGLZ rd rs) (Z.b2z (0 <? x)) /\
  execute_mapping overflow_checks Pseudo.NOP p
    = Returns tt (set_pc (with_reg p ZERO 0) next).
Proof.
  intros x runs. subst runs.
  cbv [Pseudo.NOT Pseudo.NEG Pseudo.MOV Pseudo.SEQZ Pseudo.SNEZ Pseudo.SLTZ
       Pseudo.SGLZ Pseudo.NOP].
  rewrite !execute_mapping_One. unfold_monad. rewrite Hnext.
  cbv [with_reg]. rewrite (zero_reads_zero p Hok).
  fold x. rewrite Z.lxor_m1_r, sltiu_one, sltu_zero by exact Hx.
  unfold wrapping_add. rewrite Z.add_0_r, wrap_i32_id by exact Hx.
  repeat split.
Qed.

Lemma register_pseudoinstructions_witness :
  let p := with_reg Processor_default A1 42 in
  let x := Registers_index (registers p) A1 in
  let runs it v := execute_mapping true it p
                     = Returns tt (set_pc (with_reg p A0 v) 4) in
  runs (Pseudo.NOT A0 A1) (Z.lnot x) /\
  runs (Pseudo.NEG A0 A1) (wrapping_sub 0 x) /\
  runs (Pseudo.MOV A0 A1) x /\
  runs (Pseudo.SEQZ A0 A1) (Z.b2z (x =? 0)) /\
  runs (Pseudo.SNEZ A0 A1) (Z.b2z (negb (x =? 0))) /\
  runs (Pseudo.SLTZ A0 A1) (Z.b2z (x <? 0)) /\
  runs (Pseudo.SGLZ A0 A1) (Z.b2z (0 <? x)) /\
  execute_mapping true Pseudo.NOP p = Returns tt (set_pc (with_reg p ZERO 0) 4).
Proof.
  apply (register_pseudoinstructions true (with_reg Processor_default A1 42) A0 A1 4);
    reflexivity.
Defined.

(** X: the branch-on-zero pseudoinstructions compare [rs] with 0: [BEQZ]
    is taken exactly when [rs = 0], [BNEZ] when [rs <> 0], [BLEZ] when
    [rs <= 0], [BGEZ] when [rs >= 0] and [BLTZ] when [rs < 0]; a taken branch
    (with an offset that is a multiple of 4) moves [pc] by the offset, an
    untaken one to the next instruction, and nothing else changes. *)
Theorem branch_zero_pseudoinstructions (overflow_checks : bool) (p : Processor)
    (rs : Register) (offset next target : Z)
    (Hok : zero_register_ok p)
    (Hnext : add_i32 overflow_checks (pc p) 4 = Some next)
    (Htarget : add_i32 overflow_checks (pc p) offset = Some target)
    (Halign : Z.rem offset 4 = 0) :
  let x := Registers_index (registers p) rs in
  let runs it (taken : bool) := execute_mapping overflow_checks it p
                     = Returns tt (set_pc p (if taken then target else next)) in
  runs (Pseudo.BEQZ rs offset) (x =? 0) /\
  runs (Pseudo.BNEZ rs offset) (negb (x =? 0)) /\
  runs (Pseudo.BLEZ rs offset) (x <=? 0) /\
  runs (Pseudo.BGEZ rs offset) (0 <=? x) /\
  runs (Pseudo.BLTZ rs offset) (x <? 0).
Proof.
  intros x runs. subst runs.
  cbv [Pseudo.BEQZ Pseudo.BNEZ Pseudo.BLEZ Pseudo.BGEZ Pseudo.BLTZ].
  rewrite !execute_mapping_One. unfold_monad. rewrite Hnext.
  rewrite (zero_reads_zero p Hok). fold x.
  rewrite Halign, !Z_geb_leb'. cbn [Z.eqb negb].
  repeat split;
    match goal with |- context [if ?c then _ else _] => destruct c end;
    rewrite ?Htarget; reflexivity.
Qed.

Lemma branch_zero_pseudoinstructions_witness :
  let p := set_pc (with_reg Processor_default A1 (-3)) 100 in
  let x := Registers_index (registers p) A1 in
  let runs it (taken : bool) := execute_mapping true it p
                     = Returns tt (set_pc p (if taken then 60 else 104)) in
  runs (Pseudo.BEQZ A1 (-40)) (x =? 0) /\
  runs (Pseudo.BNEZ A1 (-40)) (negb (x =? 0)) /\
  runs (Pseudo.BLEZ A1 (-40)) (x <=? 0) /\
  runs (Pseudo.BGEZ A1 (-40)) (0 <=? x) /\
  runs (Pseudo.BLTZ A1 (-40)) (x <? 0).
Proof.
  apply (branch_zero_pseudoinstructions true
           (set_pc (with_reg Processor_default A1 (-3)) 100) A1 (-40) 104 60);
    reflexivity.
Defined.

Lemma Register_eqb_false (r r' : Register) (H : r <> r') : Register_eqb r r' = false.
Proof. destruct r, r'; try reflexivity; congruence. Qed.

Lemma wrap_i32_add_l (a b : Z) : wrap_i32 (wrap_i32 a + b) = wrap_i32 (a + b).
Proof.
  unfold wrap_i32.
  replace ((a + 2 ^ 31) mod 2 ^ 32 - 2 ^ 31 + b + 2 ^ 31)
    with ((a + 2 ^ 31) mod 2 ^ 32 + b) by lia.
  rewrite Z.add_mod_idemp_l by lia. f_equal. f_equal. lia.
Qed.

Lemma sign_extend_adjustment (imm : Z) :
  sign_extend_12_spec imm = imm mod 4096 - 4096 * adjustment_spec imm.
Proof.
  unfold adjustment_spec, sign_extend_12_spec.
  pose proof (Z.mod_pos_bound imm 4096 ltac:(lia)).
  destruct (Z.leb_spec 2048 (imm mod 4096));
    repeat match goal with |- context [?a <? ?b] => destruct (Z.ltb_spec a b) end;
    lia.
Qed.

Lemma add_i32_in_range (overflow_checks : bool) (a b : Z) (H : in_i32 (a + b) = true) :
  add_i32 overflow_checks a b = Some (a + b).
Proof.
  unfold add_i32. rewrite H, andb_false_r, wrap_i32_id by exact H. reflexivity.
Qed.

(** X: executing the expansion of [LI(rd, imm)] loads [imm] into [rd] for
    every [i32] immediate, in both build profiles: the upper-part
    adjustment, the wrap of [imm << 12] and the wrapping [ADDI] cancel out.
    No other register, CSR or memory byte changes, and [pc] advances by 4
    per instruction of the expansion. *)
Theorem li_loads_immediate (overflow_checks : bool) (p : Processor)
    (rd : Register) (imm : Z)
    (Hok : zero_register_ok p) (Hrd : rd <> ZERO)
    (Himm : in_i32 imm = true)
    (Hpc : in_i32 (pc p) = true) (Hpc8 : in_i32 (pc p + 8) = true) :
  exists it p',
    LI overflow_checks rd imm = Some it /\
    execute_mapping overflow_checks it p = Returns tt p' /\
    Registers_index (registers p') rd = imm /\
    (forall r, r <> rd -> Registers_index (registers p') r = Registers_index (registers p) r) /\
    csrs p' = csrs p /\ memory p' = memory p /\
    pc p' = pc p + 4 * Z.of_nat (length (items it)).
Proof.
  pose proof (proj1 (in_i32_bounds _) Himm) as Bi.
  pose proof (proj1 (in_i32_bounds _) Hpc) as Bp.
  pose proof (proj1 (in_i32_bounds _) Hpc8) as Bp8.
  assert (Hn1 : add_i32 overflow_checks (pc p) 4 = Some (pc p + 4)).
  { apply add_i32_in_range, in_i32_bounds. lia. }
  assert (Hn2 : add_i32 overflow_checks (pc p + 4) 4 = Some (pc p + 8)).
  { rewrite add_i32_in_range; [f_equal; lia |]. apply in_i32_bounds. lia. }
  pose proof (Register_eqb_false rd ZERO Hrd) as Hz.
  unfold LI. change i12.MIN with (-2048). change i12.MAX with 2047.
  destruct ((imm >=? -2048) && (imm <=? 2047)) eqn:Hfit.
  - rewrite andb_true_iff, Z.geb_le, Z.leb_le in Hfit.
    eexists; eexists; split; [reflexivity |].
    rewrite execute_mapping_One. unfold_monad. rewrite Hn1, (zero_reads_zero p Hok).
    split; [reflexivity |].
    cbn [registers csrs memory pc set_pc set_registers items length].
    rewrite !Registers_index_assign, Register_eqb_refl, Hz. cbn [andb negb].
    repeat split.
    + unfold wrapping_add, wrap_i16. rewrite Z.mod_small by lia.
      rewrite wrap_i32_id; [lia | apply in_i32_bounds; lia].
    + intros r Hr. rewrite Registers_index_assign, Register_eqb_false by exact Hr. reflexivity.
  - unfold ImmU_RSHIFT. rewrite adjustment_agrees, sign_extend_agrees.
    rewrite Z.shiftr_div_pow2 by lia. change (2 ^ 12) with 4096.
    pose proof (adjustment_range imm).
    pose proof (Z.div_mod imm 4096 ltac:(lia)).
    pose proof (Z.mod_pos_bound imm 4096 ltac:(lia)).
    rewrite add_i32_in_range by (apply in_i32_bounds; lia).
    eexists; eexists; split; [reflexivity |].
    rewrite execute_mapping_items. cbn [items fold_right].
    unfold_monad. rewrite Hn1.
    cbn [registers csrs memory pc set_pc set_registers].
    cbv [shl_i32]. replace (12 <? 32) with true by reflexivity.
    cbv iota beta. cbn [registers csrs memory pc set_pc set_registers].
    rewrite Hn2.
    split; [reflexivity |].
    cbn [registers csrs memory pc set_pc set_registers items length].
    rewrite !Registers_index_assign, Register_eqb_refl, Hz. cbn [andb negb].
    repeat split.
    + unfold wrapping_add. rewrite wrap_i32_add_l, Z.shiftl_mul_pow2 by lia.
      rewrite sign_extend_adjustment.
      rewrite wrap_i32_id; [lia | apply in_i32_bounds; lia].
    + intros r Hr. rewrite !Registers_index_assign, Register_eqb_false by exact Hr.
      reflexivity.
Qed.

Lemma li_loads_immediate_witness :
  exists it p',
    LI true T1 0x7FFFFFFF = Some it /\
    execute_mapping true it Processor_default = Returns tt p' /\
    Registers_index (registers p') T1 = 0x7FFFFFFF /\
    (forall r, r <> T1 ->
       Registers_index (registers p') r = Registers_index (registers Processor_default) r) /\
    csrs p' = csrs Processor_default /\ memory p' = memory Processor_default /\
    pc p' = pc Processor_default + 4 * Z.of_nat (length (items it)).
Proof.
  apply (li_loads_immediate true Processor_default T1 0x7FFFFFFF);
    [reflexivity | discriminate | reflexivity | reflexivity | reflexivity].
Defined.

(** ** Calls and tail calls *)

Lemma low12_of_i16 (a : Z) : Z.land (wrap_i16 a) i12.MASK = a mod 4096.
Proof.
  change i12.MASK with (Z.ones 12). rewrite Z.land_ones by lia.
  unfold wrap_i16. change (2 ^ 12) with 4096.
  replace ((a + 2 ^ 15) mod 2 ^ 16 - 2 ^ 15)
    with (a + (- 16 * ((a + 2 ^ 15) / 2 ^ 16)) * 4096)
    by (pose proof (Z.div_mod (a + 2 ^ 15) (2 ^ 16)); lia).
  apply Z.mod_add. lia.
Qed.

Lemma clear_bit0_even (x : Z) (H : x mod 2 = 0) : Z.land x (Z.lnot 1) = x.
Proof.
  apply Z.bits_inj. intros n.
  destruct (Z.ltb_spec n 0) as [Hn | Hn].
  - rewrite !Z.testbit_neg_r by lia. reflexivity.
  - rewrite Z.land_spec, Z.lnot_spec by lia.
    destruct (Z.eqb_spec n 0) as [-> | Hn0].
    + pose proof (Z.bit0_mod x) as B. rewrite H in B.
      destruct (Z.testbit x 0); [discriminate B | reflexivity].
    + rewrite Z.bits_above_log2 with (a := 1) by (cbn; lia).
      rewrite andb_true_r. reflexivity.
Qed.

(** X: in this emulator the two-instruction [CALL(address)] and
    [TAIL(address)] jump to [pc + address]: the [AUIPC] puts the upper part
    [pc + (address - address mod 4096)] in its register and the [JALR]
    adds the low 12 bits, which [(address as i16) & i12::MASK] keeps
    non-negative (the [JALR] offset is not sign-extended from 12 bits).
    [CALL] leaves the return address [pc + 8] in [RA]; [TAIL] leaves the
    upper part in [T1] and links nothing.  No other register, CSR or memory
    byte changes.  The hypotheses: no [i32] overflow and a target that is a
    multiple of 4. *)
Theorem call_tail_jump (overflow_checks : bool) (p : Processor) (address : Z)
    (Haddr : in_i32 address = true)
    (Hpc : in_i32 (pc p) = true) (Hpc8 : in_i32 (pc p + 8) = true)
    (Hupper : in_i32 (pc p + (address - address mod 4096)) = true)
    (Htarget : in_i32 (pc p + address) = true)
    (Halign : (pc p + address) mod 4 = 0) :
  (exists p',
     execute_mapping overflow_checks (Pseudo.CALL address) p = Returns tt p' /\
     pc p' = pc p + address /\
     Registers_index (registers p') RA = pc p + 8 /\
     (forall r, r <> RA ->
        Registers_index (registers p') r = Registers_index (registers p) r) /\
     csrs p' = csrs p /\ memory p' = memory p) /\
  (exists p',
     execute_mapping overflow_checks (Pseudo.TAIL address) p = Returns tt p' /\
     pc p' = pc p + address /\
     Registers_index (registers p') T1 = pc p + (address - address mod 4096) /\
     (forall r, r <> T1 ->
        Registers_index (registers p') r = Registers_index (registers p) r) /\
     csrs p' = csrs p /\ memory p' = memory p).
Proof.
  pose proof (proj1 (in_i32_bounds _) Haddr) as Ba.
  pose proof (proj1 (in_i32_bounds _) Hpc) as Bp.
  pose proof (proj1 (in_i32_bounds _) Hpc8) as Bp8.
  pose proof (Z.mod_pos_bound address 4096 ltac:(lia)) as Blo.
  pose proof (Z.div_mod address 4096 ltac:(lia)) as Bdm.
  assert (Hn1 : add_i32 overflow_checks (pc p) 4 = Some (pc p + 4)).
  { apply add_i32_in_range, in_i32_bounds. lia. }
  assert (Hn2 : add_i32 overflow_checks (pc p + 4) 4 = Some (pc p + 8)).
  { rewrite add_i32_in_range; [f_equal; lia |]. apply in_i32_bounds. lia. }
  assert (Hs : shl_i32 overflow_checks (Z.shiftr address ImmU_RSHIFT) 12
               = Some (address - address mod 4096)).
  { unfold shl_i32, ImmU_RSHIFT. replace (12 <? 32) with true by reflexivity.
    rewrite Z.shiftr_div_pow2, Z.shiftl_mul_pow2 by lia.
    change (2 ^ 12) with 4096.
    rewrite wrap_i32_id; [f_equal; lia | apply in_i32_bounds; lia]. }
  assert (Hu : add_i32 overflow_checks (pc p) (address - address mod 4096)
               = Some (pc p + (address - address mod 4096))).
  { apply add_i32_in_range. exact Hupper. }
  assert (Hj : add_i32 overflow_checks (pc p + (address - address mod 4096))
                 (address mod 4096) = Some (pc p + address)).
  { rewrite add_i32_in_range; [f_equal; lia |].
    replace (pc p + (address - address mod 4096) + address mod 4096)
      with (pc p + address) by lia. exact Htarget. }
  assert (Hland : Z.land (pc p + address) (Z.lnot 1) = pc p + address).
  { apply clear_bit0_even.
    rewrite (Z.div_mod (pc p + address) 4) at 1 by lia. rewrite Halign.
    replace (4 * ((pc p + address) / 4) + 0) with (((pc p + address) / 4 * 2) * 2) by lia.
    apply Z.mod_mul. lia. }
  assert (Hrem : Z.rem (pc p + address) 4 = 0).
  { apply Z.rem_mod_eq_0; [lia | exact Halign]. }
  split; eexists.
  - cbv [Pseudo.CALL]. rewrite low12_of_i16, execute_mapping_items.
    cbn [items fold_right]. unfold_monad. rewrite Hn1, Hs. cbv iota beta.
    cbn [registers csrs memory pc set_pc set_registers Registers_index Registers_assign gprs].
    rewrite Hu. cbv iota beta.
    cbn [registers csrs memory pc set_pc set_registers Registers_index Registers_assign gprs].
    rewrite Hn2. cbv iota beta.
    cbn [registers csrs memory pc set_pc set_registers Registers_index Registers_assign gprs zero].
    rewrite Register_eqb_refl, Hj. cbv iota beta. rewrite Hland, Hrem. cbn [negb Z.eqb].
    cbn [registers csrs memory pc set_pc set_registers Registers_index Registers_assign gprs zero].
    split; [reflexivity |].
    cbn [registers csrs memory pc set_pc set_registers Registers_index Registers_assign gprs zero].
    rewrite Register_eqb_refl.
    repeat split. intros r Hr. destruct r; try congruence; reflexivity.
  - cbv [Pseudo.TAIL]. rewrite low12_of_i16, execute_mapping_items.
    cbn [items fold_right]. unfold_monad. rewrite Hn1, Hs. cbv iota beta.
    cbn [registers csrs memory pc set_pc set_registers Registers_index Registers_assign gprs].
    rewrite Hu. cbv iota beta.
    cbn [registers csrs memory pc set_pc set_registers Registers_index Registers_assign gprs].
    rewrite Hn2. cbv iota beta.
    cbn [registers csrs memory pc set_pc set_registers Registers_index Registers_assign gprs zero].
    rewrite Register_eqb_refl, Hj. cbv iota beta. rewrite Hland, Hrem. cbn [negb Z.eqb].
    cbn [registers csrs memory pc set_pc set_registers Registers_index Registers_assign gprs zero].
    split; [reflexivity |].
    cbn [registers csrs memory pc set_pc set_registers Registers_index Registers_assign gprs zero].
    rewrite Register_eqb_refl.
    repeat split. intros r Hr. destruct r; try congruence; reflexivity.
Qed.

Lemma call_tail_jump_witness :
  (exists p',
     execute_mapping true (Pseudo.CALL 0x12344) (processor_at 0x1000) = Returns tt p' /\
     pc p' = pc (processor_at 0x1000) + 0x12344 /\
     Registers_index (registers p') RA = pc (processor_at 0x1000) + 8 /\
     (forall r, r <> RA ->
        Registers_index (registers p') r
          = Registers_index (registers (processor_at 0x1000)) r) /\
     csrs p' = csrs (processor_at 0x1000) /\ memory p' = memory (processor_at 0x1000)) /\
  (exists p',
     execute_mapping true (Pseudo.TAIL 0x12344) (processor_at 0x1000) = Returns tt p' /\
     pc p' = pc (processor_at 0x1000) + 0x12344 /\
     Registers_index (registers p') T1
       = pc (processor_at 0x1000) + (0x12344 - 0x12344 mod 4096) /\
     (forall r, r <> T1 ->
        Registers_index (registers p') r
          = Registers_index (registers (processor_at 0x1000)) r) /\
     csrs p' = csrs (processor_at 0x1000) /\ memory p' = memory (processor_at 0x1000)).
Proof.
  apply (call_tail_jump true (processor_at 0x1000) 0x12344); reflexivity.
Defined.

(** ** CSR pseudoinstructions *)

(** X: for a CSR number below [CSR_SIZE], [CSRR rd, csr] copies the CSR
    into [rd] and leaves the bank alone; [CSRW rs, csr] writes [rs] into
    the CSR, except that [CSRW ZERO, csr] (a [CSRRW] with [rs1 = ZERO])
    leaves the CSR unchanged instead of clearing it; [CSRS] / [CSRC] set /
    clear the bits of [rs]; [CSRWI], [CSRSI], [CSRCI] do the same with the
    immediate.  The forms with [rd = ZERO] send the old value to register 0,
    where it is discarded, and [pc] moves to the next instruction. *)
Theorem csr_pseudoinstructions (overflow_checks : bool) (p : Processor)
    (rd rs : Register) (csr imm next : Z)
    (Hcsr : csr < CSR_SIZE)
    (Hnext : add_i32 overflow_checks (pc p) 4 = Some next) :
  let old := csr_cells (csrs p) csr in
  let x := Registers_index (registers p) rs in
  let runs it p' := execute_mapping overflow_checks it p = Returns tt (set_pc p' next) in
  runs (Pseudo.CSRR rd csr) (with_reg p rd old) /\
  runs (Pseudo.CSRW rs csr)
    (with_reg (if Register_eqb rs ZERO then p else with_csr p csr x) ZERO old) /\
  runs (Pseudo.CSRS rs csr) (with_reg (with_csr p csr (Z.lor old x)) ZERO old) /\
  runs (Pseudo.CSRC rs csr) (with_reg (with_csr p csr (Z.land old (Z.lnot x))) ZERO old) /\
  runs (Pseudo.CSRWI csr imm) (with_reg (with_csr p csr imm) ZERO old) /\
  runs (Pseudo.CSRSI csr imm) (with_reg (with_csr p csr (Z.lor old imm)) ZERO old) /\
  runs (Pseudo.CSRCI csr imm)
    (with_reg (with_csr p csr (Z.land old (Z.lnot imm))) ZERO old).
Proof.
  intros old x runs. subst runs. apply Z.ltb_lt in Hcsr.
  cbv [Pseudo.CSRR Pseudo.CSRW Pseudo.CSRS Pseudo.CSRC Pseudo.CSRWI Pseudo.CSRSI
       Pseudo.CSRCI].
  rewrite !execute_mapping_One. unfold_monad. rewrite Hnext.
  cbv [CSR32_read CSR32_read_write CSR32_set_bits CSR32_clear_bits]. rewrite Hcsr.
  repeat split; destruct rs; reflexivity.
Qed.

Lemma csr_pseudoinstructions_witness :
  let p := with_reg (with_csr Processor_default 0x305 0xF0) A2 0x0F in
  let old := csr_cells (csrs p) 0x305 in
  let x := Registers_index (registers p) A2 in
  let runs it p' := execute_mapping true it p = Returns tt (set_pc p' 4) in
  runs (Pseudo.CSRR A0 0x305) (with_reg p A0 old) /\
  runs (Pseudo.CSRW A2 0x305)
    (with_reg (if Register_eqb A2 ZERO then p else with_csr p 0x305 x) ZERO old) /\
  runs (Pseudo.CSRS A2 0x305) (with_reg (with_csr p 0x305 (Z.lor old x)) ZERO old) /\
  runs (Pseudo.CSRC A2 0x305)
    (with_reg (with_csr p 0x305 (Z.land old (Z.lnot x))) ZERO old) /\
  runs (Pseudo.CSRWI 0x305 9) (with_reg (with_csr p 0x305 9) ZERO old) /\
  runs (Pseudo.CSRSI 0x305 9) (with_reg (with_csr p 0x305 (Z.lor old 9)) ZERO old) /\
  runs (Pseudo.CSRCI 0x305 9)
    (with_reg (with_csr p 0x305 (Z.land old (Z.lnot 9))) ZERO old).
Proof.
  apply (csr_pseudoinstructions true
           (with_reg (with_csr Processor_default 0x305 0xF0) A2 0x0F) A0 A2 0x305 9 4);
    reflexivity.
Defined.

(** ** Memory *)

Lemma list_set_length (l : list Z) (n : nat) (x : Z) :
  length (list_set l n x) = length l.
Proof. revert n; induction l as [| h t IH]; intros [| n]; cbn; auto. Qed.

Lemma nth_list_set (l : list Z) (n k : nat) (x d : Z) :
  nth k (list_set l n x) d =
    if Nat.eqb k n && Nat.ltb n (length l) then x else nth k l d.
Proof.
  revert n k; induction l as [| h t IH]; intros [| n] [| k];
    cbn [list_set nth length]; try reflexivity.
  - cbn [Nat.ltb Nat.leb]. rewrite andb_false_r. reflexivity.
  - change (Nat.eqb (S k) (S n)) with (Nat.eqb k n).
    change (Nat.ltb (S n) (S (length t))) with (Nat.ltb n (length t)).
    apply IH.
Qed.

Lemma write_bytes_length (l : list Z) (loc : nat) (bs : list Z) :
  length (write_bytes l loc bs) = length l.
Proof.
  revert l loc; induction bs as [| b bs IH]; intros l loc; cbn; [reflexivity |].
  rewrite IH. apply list_set_length.
Qed.

Lemma nth_write_bytes (l : list Z) (loc : nat) (bs : list Z) (k : nat) (d : Z)
    (H : (loc + length bs <= length l)%nat) :
  nth k (write_bytes l loc bs) d =
    if Nat.leb loc k && Nat.ltb k (loc + length bs) then nth (k - loc) bs d
    else nth k l d.
Proof.
  revert l loc H; induction bs as [| b bs IH]; intros l loc H; cbn [write_bytes].
  - cbn [length]. rewrite Nat.add_0_r.
    destruct (Nat.leb_spec loc k), (Nat.ltb_spec k loc); try lia; reflexivity.
  - cbn [length] in H |- *. rewrite IH by (rewrite list_set_length; lia).
    rewrite nth_list_set.
    destruct (Nat.leb_spec (S loc) k), (Nat.ltb_spec k (S loc + length bs)),
      (Nat.leb_spec loc k), (Nat.ltb_spec k (loc + S (length bs))),
      (Nat.eqb_spec k loc), (Nat.ltb_spec loc (length l));
      try lia; cbn [andb]; try reflexivity.
    + replace (k - loc)%nat with (S (k - S loc)) by lia. reflexivity.
    + subst k. rewrite Nat.sub_diag. reflexivity.
Qed.

Lemma resize_length (n : nat) (m : Memory) (loc : nat) :
  length (data (resize n m loc)) = Nat.max (length (data m)) (loc + n).
Proof.
  unfold resize. destruct (Nat.ltb_spec (length (data m)) (loc + n)); cbn [data].
  - rewrite length_app, repeat_length. lia.
  - lia.
Qed.

Lemma resize_byte_at (n : nat) (m : Memory) (loc k : nat) :
  byte_at (resize n m loc) k = byte_at m k.
Proof.
  unfold resize, byte_at.
  destruct (Nat.ltb (length (data m)) (loc + n)); cbn [data]; [| reflexivity].
  destruct (Nat.ltb_spec k (length (data m))).
  - apply app_nth1. exact H.
  - rewrite app_nth2 by lia. rewrite nth_repeat.
    symmetry. apply nth_overflow. lia.
Qed.

Lemma le_bytes_length (n : nat) (v : Z) : length (le_bytes n v) = n.
Proof. revert v; induction n; intros v; cbn; [reflexivity | now rewrite IHn]. Qed.

Lemma store_n_length (n : nat) (m : Memory) (loc : nat) (v : Z) :
  length (data (store_n n m loc v)) = Nat.max (length (data m)) (loc + n).
Proof. unfold store_n. cbn [data]. rewrite write_bytes_length. apply resize_length. Qed.

Lemma store_n_byte_at (n : nat) (m : Memory) (loc k : nat) (v : Z) :
  byte_at (store_n n m loc v) k =
    if Nat.leb loc k && Nat.ltb k (loc + n) then nth (k - loc) (le_bytes n v) 0
    else byte_at m k.
Proof.
  unfold store_n, byte_at. cbn [data].
  rewrite nth_write_bytes by (rewrite le_bytes_length, resize_length; lia).
  rewrite le_bytes_length. fold (byte_at (resize n m loc) k).
  rewrite resize_byte_at. reflexivity.
Qed.

Lemma store_n_byte_at_in (n : nat) (m : Memory) (loc i : nat) (v : Z)
    (H : (i < n)%nat) :
  byte_at (store_n n m loc v) (loc + i) = nth i (le_bytes n v) 0.
Proof.
  rewrite store_n_byte_at.
  destruct (Nat.leb_spec loc (loc + i)), (Nat.ltb_spec (loc + i) (loc + n));
    try lia. cbn [andb]. f_equal. lia.
Qed.

Lemma store_n_byte_at_base (n : nat) (m : Memory) (loc : nat) (v : Z)
    (H : (0 < n)%nat) :
  byte_at (store_n n m loc v) loc = nth 0 (le_bytes n v) 0.
Proof.
  pose proof (store_n_byte_at_in n m loc 0 v H) as E.
  rewrite Nat.add_0_r in E. exact E.
Qed.

Lemma le_sum_2 (v : Z) : v mod 256 + 256 * ((v / 256) mod 256) = v mod 2 ^ 16.
Proof.
  change (2 ^ 16) with (256 * 256). rewrite Z.rem_mul_r by lia. lia.
Qed.

Lemma le_sum_4 (v : Z) :
  v mod 256 + 256 * ((v / 256) mod 256)
  + 2 ^ 16 * ((v / 256 / 256) mod 256) + 2 ^ 24 * ((v / 256 / 256 / 256) mod 256)
  = v mod 2 ^ 32.
Proof.
  rewrite !Z.div_div by lia.
  change (2 ^ 32) with (256 * (256 * (256 * 256))).
  rewrite !Z.rem_mul_r by lia. rewrite !Z.div_div by lia. lia.
Qed.

Lemma wrap_mod (v : Z) :
  wrap_i8 (v mod 2 ^ 8) = wrap_i8 v /\ wrap_i16 (v mod 2 ^ 16) = wrap_i16 v /\
  wrap_i32 (v mod 2 ^ 32) = wrap_i32 v.
Proof.
  unfold wrap_i8, wrap_i16, wrap_i32.
  rewrite !Z.add_mod_idemp_l by lia. repeat split.
Qed.

(** X: a value stored at a location reads back from there: [load_byte]
    after [store_byte] gives the value as an [i8], [load_half] after
    [store_half] as an [i16] and [load_word] after [store_word] as an [i32]
    (little-endian both ways), whatever the memory held and however short
    it was. *)
Theorem memory_store_load_roundtrip (m : Memory) (location : nat) (v : Z) :
  fst (load_byte (store_byte m location v) location) = wrap_i8 v /\
  fst (load_half (store_half m location v) location) = wrap_i16 v /\
  fst (load_word (store_word m location v) location) = wrap_i32 v.
Proof.
  unfold load_byte, load_half, load_word, store_byte, store_half, store_word.
  cbn [fst]. rewrite !resize_byte_at.
  rewrite !store_n_byte_at_base, !store_n_byte_at_in by lia.
  cbn [le_bytes nth]. unfold wrap_u8.
  rewrite !Z.shiftr_div_pow2 by lia. change (2 ^ 8) with 256.
  pose proof (wrap_mod v) as [W8 [W16 W32]].
  split; [exact W8 | split].
  - rewrite le_sum_2. exact W16.
  - rewrite le_sum_4. exact W32.
Qed.

(** X: a load changes no byte of memory, but it does grow the memory (a
    [Vec<u8>], compared by [PartialEq]) to [location + N] bytes when it was
    shorter, zero-filled: [N] is 1, 2 and 4 for [load_byte], [load_half]
    and [load_word]. *)
Theorem memory_load_frame (m : Memory) (location k : nat) :
  byte_at (snd (load_byte m location)) k = byte_at m k /\
  byte_at (snd (load_half m location)) k = byte_at m k /\
  byte_at (snd (load_word m location)) k = byte_at m k /\
  length (data (snd (load_byte m location))) = Nat.max (length (data m)) (location + 1) /\
  length (data (snd (load_half m location))) = Nat.max (length (data m)) (location + 2) /\
  length (data (snd (load_word m location))) = Nat.max (length (data m)) (location + 4).
Proof.
  unfold load_byte, load_half, load_word. cbn [snd].
  rewrite !resize_byte_at, !resize_length. repeat split.
Qed.

(** X: a store of [N] bytes at [location] ([N] = 1, 2, 4 for [store_byte],
    [store_half], [store_word], whose common body is [store_n N]) changes
    no byte outside [location .. location + N - 1], and grows the memory,
    zero-filled, to at least [location + N] bytes. *)
Theorem memory_store_frame (n : nat) (m : Memory) (location k : nat) (v : Z)
    (Hk : (k < location)%nat \/ (location + n <= k)%nat) :
  byte_at (store_n n m location v) k = byte_at m k /\
  length (data (store_n n m location v)) = Nat.max (length (data m)) (location + n).
Proof.
  split; [| apply store_n_length].
  rewrite store_n_byte_at.
  destruct (Nat.leb_spec location k), (Nat.ltb_spec k (location + n));
    try lia; reflexivity.
Qed.

Lemma memory_store_frame_witness :
  byte_at (store_n 4 (memory Processor_default) 8 0x11223344) 12
    = byte_at (memory Processor_default) 12 /\
  length (data (store_n 4 (memory Processor_default) 8 0x11223344))
    = Nat.max (length (data (memory Processor_default))) (8 + 4).
Proof.
  apply (memory_store_frame 4 (memory Processor_default) 8 12 0x11223344). right. lia.
Defined.

(** ** What an instruction leaves alone *)

Lemma Register_eqb_true (r r' : Register) (H : Register_eqb r r' = true) : r = r'.
Proof. destruct r, r'; try reflexivity; discriminate H. Qed.

Lemma load_keeps_bytes (load : Memory -> nat -> Z * Memory) (m m' : Memory)
    (l : nat) (v : Z)
    (Hload : load = load_byte \/ load = load_half \/ load = load_word)
    (H : load m l = (v, m')) (k : nat) :
  byte_at m' k = byte_at m k.
Proof.
  destruct Hload as [-> | [-> | ->]];
    unfold load_byte, load_half, load_word in H; injection H as _ <-;
    apply resize_byte_at.
Qed.

Ltac run_execute H :=
  revert H; unfold_monad; intros H;
  repeat (match type of H with
          | context [match ?x with _ => _ end] =>
              lazymatch x with
              | context [match _ with _ => _ end] => fail
              | _ => destruct x eqn:?
              end
          end; try discriminate H);
  try discriminate H; injection H as _ <-;
  cbn [registers csrs memory pc set_pc set_registers set_csrs set_memory].

(** X: only the six CSR instructions change the CSR bank: any other
    instruction, whether it returns or raises, leaves every CSR as it was. *)
Theorem execute_csr_frame (overflow_checks : bool) (i : Instruction) (p p' : Processor)
    (Hi : is_csr_instruction i = false)
    (Hrun : (exists u, execute overflow_checks i p = Returns u p') \/
            (exists e, execute overflow_checks i p = Throws e p')) :
  csrs p' = csrs p.
Proof.
  destruct Hrun as [[u H] | [e H]]; destruct i; try discriminate Hi;
    run_execute H; reflexivity.
Qed.

Lemma execute_csr_frame_witness :
  csrs (set_pc (with_reg (with_csr Processor_default 7 9) A0 9) 4)
    = csrs (with_csr Processor_default 7 9).
Proof.
  apply (execute_csr_frame true (ADDI A0 A0 9) (with_csr Processor_default 7 9)).
  - reflexivity.
  - left. exists tt. vm_compute. reflexivity.
Defined.

(** X: only the stores [SB], [SH], [SW] change a byte of memory: any other
    instruction, whether it returns or raises, leaves every byte as it was
    (a load may still grow the memory, zero-filled). *)
Theorem execute_memory_frame (overflow_checks : bool) (i : Instruction) (p p' : Processor)
    (Hi : is_store i = false)
    (Hrun : (exists u, execute overflow_checks i p = Returns u p') \/
            (exists e, execute overflow_checks i p = Throws e p'))
    (k : nat) :
  byte_at (memory p') k = byte_at (memory p) k.
Proof.
  destruct Hrun as [[u H] | [e H]]; destruct i; try discriminate Hi;
    run_execute H; try reflexivity;
    match goal with
    | E : ?ld _ _ = (_, _) |- _ =>
        eapply (load_keeps_bytes ld); [auto | exact E]
    end.
Qed.

Lemma execute_memory_frame_witness :
  byte_at (memory (set_pc (set_memory (with_reg Processor_default A0 0)
                              (resize 4 (memory Processor_default) 64)) 4)) 65
    = byte_at (memory Processor_default) 65.
Proof.
  apply (execute_memory_frame true (LW A0 ZERO 64) Processor_default).
  - reflexivity.
  - left. exists tt. vm_compute. reflexivity.
Defined.

(** X: an instruction writes at most its destination register: any register
    other than [rd] (all of them for stores and branches) reads the same
    after the instruction, whether it returns or raises. *)
Theorem execute_register_frame (overflow_checks : bool) (i : Instruction)
    (p p' : Processor) (r : Register)
    (Hr : rd_of i <> Some r)
    (Hrun : (exists u, execute overflow_checks i p = Returns u p') \/
            (exists e, execute overflow_checks i p = Throws e p')) :
  Registers_index (registers p') r = Registers_index (registers p) r.
Proof.
  destruct Hrun as [[u H] | [e H]]; destruct i; cbn [rd_of] in Hr;
    run_execute H; try reflexivity;
    rewrite Registers_index_assign;
    match goal with
    | |- context [Register_eqb r ?rd] =>
        destruct (Register_eqb r rd) eqn:E;
          [apply Register_eqb_true in E; subst; congruence | reflexivity]
    end.
Qed.

Lemma execute_register_frame_witness :
  Registers_index (registers (set_pc (with_reg Processor_default A0 9) 4)) A1
    = Registers_index (registers Processor_default) A1.
Proof.
  apply (execute_register_frame true (ADDI A0 ZERO 9) Processor_default).
  - discriminate.
  - left. exists tt. vm_compute. reflexivity.
Defined.

(** X: an instruction other than a jump or a branch never raises an
    [Exception] (it returns or panics), and when it returns, [pc] has moved
    to the next instruction, [pc + 4]. *)
Theorem execute_straight_line (overflow_checks : bool) (i : Instruction)
    (p : Processor) (next : Z)
    (Hi : is_control_flow i = false)
    (Hnext : add_i32 overflow_checks (pc p) 4 = Some next) :
  (forall e p', execute overflow_checks i p <> Throws e p') /\
  (forall u p', execute overflow_checks i p = Returns u p' -> pc p' = next).
Proof.
  split.
  - intros e p' H. destruct i; try discriminate Hi; run_execute H.
  - intros u p' H. destruct i; try discriminate Hi; run_execute H;
      congruence.
Qed.

Lemma execute_straight_line_witness :
  (forall e p', execute true (LUI A0 5) (processor_at 8) <> Throws e p') /\
  (forall u p', execute true (LUI A0 5) (processor_at 8) = Returns u p' -> pc p' = 12).
Proof.
  apply (execute_straight_line true (LUI A0 5) (processor_at 8) 12); reflexivity.
Defined.

(** ** Encoding and decoding *)

Lemma land_shifted_ones (x k n : Z) (Hk : 0 <= k) (Hn : 0 <= n) :
  Z.land x (Z.shiftl (Z.ones k) n) = Z.shiftl ((x / 2 ^ n) mod 2 ^ k) n.
Proof.
  apply Z.bits_inj'; intros i Hi. rewrite Z.land_spec.
  destruct (Z.lt_ge_cases i n).
  - rewrite !Z.shiftl_spec_low by lia. apply andb_false_r.
  - rewrite !Z.shiftl_spec_high by lia.
    rewrite <- Z.shiftr_div_pow2, <- Z.land_ones, Z.land_spec, Z.shiftr_spec by lia.
    now rewrite Z.sub_add.
Qed.

Lemma field_mask (x k n : Z) (Hk : 0 <= k) (Hn : 0 <= n) :
  Z.shiftr (Z.land x (Z.shiftl (Z.ones k) n)) n = (x / 2 ^ n) mod 2 ^ k.
Proof.
  rewrite land_shifted_ones by lia.
  rewrite Z.shiftr_shiftl_l, Z.sub_diag by lia. apply Z.shiftl_0_r.
Qed.

Lemma lor_disjoint (a b n : Z) (Hn : 0 <= n) (Hb : 0 <= b < 2 ^ n) :
  Z.lor (Z.shiftl a n) b = Z.shiftl a n + b.
Proof.
  rewrite Z.add_nocarry_lxor, Z.lxor_lor; [reflexivity | |];
  apply Z.bits_inj'; intros i Hi; rewrite Z.land_spec, Z.bits_0;
  (destruct (Z.lt_ge_cases i n);
   [rewrite Z.shiftl_spec_low by lia; reflexivity
   | rewrite <- (Z.mod_small b (2 ^ n)), Z.mod_pow2_bits_high by lia; apply andb_false_r]).
Qed.

Lemma wrap_u32_shift (v n : Z) (Hn : 0 <= n <= 32) :
  wrap_u32 (Z.shiftl (wrap_u32 v) n) = v mod 2 ^ (32 - n) * 2 ^ n.
Proof.
  unfold wrap_u32. rewrite Z.shiftl_mul_pow2 by lia.
  replace (2 ^ 32) with (2 ^ (32 - n) * 2 ^ n) at 2
    by (rewrite <- Z.pow_add_r by lia; f_equal; lia).
  rewrite Z.mul_mod_distr_r by (apply Z.pow_nonzero; lia).
  rewrite Z.mod_mod_divide; [reflexivity |].
  exists (2 ^ n). rewrite <- Z.pow_add_r by lia. f_equal; lia.
Qed.

Lemma ImmI_encode_mod (v : Z) : ImmI_encode v = v mod 4096 * 2 ^ 20.
Proof. unfold ImmI_encode. now rewrite wrap_u32_shift by lia. Qed.

Lemma ImmU_encode_mod (v : Z) : ImmU_encode v = v mod 2 ^ 20 * 2 ^ 12.
Proof. unfold ImmU_encode. now rewrite wrap_u32_shift by lia. Qed.

Lemma Csr_encode_mod (v : Z) : Csr_encode v = v mod 4096 * 2 ^ 20.
Proof.
  unfold Csr_encode, wrap_u32. rewrite Z.shiftl_mul_pow2 by lia.
  change (2 ^ 32) with (4096 * 2 ^ 20). now rewrite Z.mul_mod_distr_r.
Qed.

Lemma Shamt_encode_mod (v : Z) : Shamt_encode v = v mod 64 * 2 ^ 20.
Proof.
  unfold Shamt_encode. rewrite wrap_u32_shift by lia.
  change 0x3F00000 with (Z.shiftl (Z.ones 6) 20).
  rewrite land_shifted_ones, Z.shiftl_mul_pow2 by lia.
  rewrite Z.div_mul by lia. f_equal.
  apply Z.mod_mod_divide. now exists 64.
Qed.

Lemma CsrImm_encode_mod (v : Z) : CsrImm_encode v = v mod 32 * 2 ^ 15.
Proof.
  unfold CsrImm_encode. change (Z.shiftl v 15) with (Z.shiftl v 15).
  replace (wrap_u32 (Z.shiftl v 15)) with (v mod 2 ^ 17 * 2 ^ 15).
  2:{ unfold wrap_u32. rewrite Z.shiftl_mul_pow2 by lia.
      change (2 ^ 32) with (2 ^ 17 * 2 ^ 15). now rewrite Z.mul_mod_distr_r. }
  change 0xF8000 with (Z.shiftl (Z.ones 5) 15).
  rewrite land_shifted_ones, Z.shiftl_mul_pow2 by lia.
  rewrite Z.div_mul by lia. f_equal.
  apply Z.mod_mod_divide. now exists 4096.
Qed.

Lemma SImmI_encode_mod (v : Z) :
  SImmI_encode v = (v mod 4096) / 32 * 2 ^ 25 + v mod 32 * 2 ^ 7.
Proof.
  unfold SImmI_encode, i12.MASK.
  change 0xFFF with (Z.ones 12). rewrite Z.land_ones by lia.
  assert (Ht : 0 <= v mod 2 ^ 12 < 2 ^ 12) by (apply Z.mod_pos_bound; lia).
  cbv zeta. unfold wrap_u32.
  rewrite (Z.mod_small (v mod 2 ^ 12) (2 ^ 32)) by lia. rewrite !Z.shiftl_mul_pow2 by lia.
  rewrite !Z.mod_small by lia.
  change (0xFE000000 + 0xF80) with
    (Z.lor (Z.shiftl (Z.ones 7) 25) (Z.shiftl (Z.ones 5) 7)).
  rewrite Z.land_lor_distr_r, !land_shifted_ones by lia.
  rewrite lor_disjoint.
  2: lia.
  2:{ rewrite Z.shiftl_mul_pow2 by lia.
      match goal with |- context [?x mod 2 ^ 5] =>
        pose proof (Z.mod_pos_bound x (2 ^ 5) ltac:(lia)) end.
      lia. }
  rewrite !Z.shiftl_mul_pow2 by lia.
  change (2 ^ 12) with 4096 in *.
  assert (E32 : (v mod 4096) mod 32 = v mod 32)
    by (apply Z.mod_mod_divide; now exists 128).
  rewrite <- E32. clear E32.
  set (t := v mod 4096) in *. clearbody t.
  Z.div_mod_to_equations. lia.
Qed.

Lemma bits_div (w lo width : Z) (Hlo : 0 <= lo) (Hwidth : 0 <= width) :
  bits w lo width = (w / 2 ^ lo) mod 2 ^ width.
Proof. unfold bits. now rewrite Z.land_ones, Z.shiftr_div_pow2. Qed.

Lemma sign_extend_12_id (v : Z) (H : -2048 <= v <= 2047) : sign_extend_12_spec v = v.
Proof.
  unfold sign_extend_12_spec.
  destruct (Z.leb_spec 2048 (v mod 4096)); Z.div_mod_to_equations; lia.
Qed.

(** The field layout of a 32-bit instruction word: what each field
    decoder of [types.rs] extracts from a word assembled from its parts. *)
Lemma decode_fields (w c0 a c1 b e g : Z)
    (H0 : 0 <= c0 < 128) (Ha : 0 <= a < 32) (H1 : 0 <= c1 < 8) (Hb : 0 <= b < 32)
    (He : 0 <= e < 32) (Hg : 0 <= g < 128)
    (Hw : w = c0 + a * 2 ^ 7 + c1 * 2 ^ 12 + b * 2 ^ 15 + e * 2 ^ 20 + g * 2 ^ 25) :
  op_code w = c0 /\ Rd_decode w = Register_const_from a /\ Funct3_decode w = c1 /\
  Rs1_decode w = Register_const_from b /\ Rs2_decode w = Register_const_from e /\
  Funct7_decode w = g /\ Funct6_decode w = g / 2 /\
  Shamt_decode w = e + 32 * (g mod 2) /\
  ImmI_decode w = sign_extend_12_spec (e + 32 * g) /\ Csr_decode w = e + 32 * g /\
  CsrImm_decode w = b /\ SImmI_decode w = sign_extend_12_spec (a + 32 * g).
Proof.
  assert (Hw32 : 0 <= w < 2 ^ 32) by lia.
  assert (F : forall k n, 0 <= k -> 0 <= n ->
            Z.shiftr (Z.land w (Z.shiftl (Z.ones k) n)) n = (w / 2 ^ n) mod 2 ^ k)
    by (intros; now apply field_mask).
  unfold op_code, Rd_decode, Funct3_decode, Rs1_decode, Rs2_decode, Shamt_decode,
    CsrImm_decode.
  rewrite Funct7_bits, Funct6_bits, !bits_div by lia.
  change 0x7F with (Z.ones 7). rewrite Z.land_ones by lia.
  change 0xF80 with (Z.shiftl (Z.ones 5) 7).
  change 0x7000 with (Z.shiftl (Z.ones 3) 12).
  change 0xF8000 with (Z.shiftl (Z.ones 5) 15).
  change 0x1F00000 with (Z.shiftl (Z.ones 5) 20).
  change 0x3F00000 with (Z.shiftl (Z.ones 6) 20).
  rewrite !F by lia.
  unfold ImmI_decode, Csr_decode, SImmI_decode, wrap_i16, wrap_u16, wrap_i32,
    sign_extend_12_spec.
  change 0xFE000000 with (Z.shiftl (Z.ones 7) 25).
  change 0xF80 with (Z.shiftl (Z.ones 5) 7).
  rewrite land_shifted_ones, !F by lia.
  rewrite !Z.shiftr_div_pow2, !Z.shiftl_mul_pow2 by lia.
  subst w.
  repeat split;
    first
    [ f_equal; Z.div_mod_to_equations; lia
    | match goal with |- context [2048 <=? ?x] => destruct (Z.leb_spec 2048 x) end;
      Z.div_mod_to_equations; lia
    | Z.div_mod_to_equations; lia ].
Qed.

Lemma decode_fields_U (w c0 a u : Z)
    (H0 : 0 <= c0 < 128) (Ha : 0 <= a < 32) (Hu : 0 <= u < 2 ^ 20)
    (Hw : w = c0 + a * 2 ^ 7 + u * 2 ^ 12) :
  op_code w = c0 /\ Rd_decode w = Register_const_from a /\ ImmU_decode w = u.
Proof.
  unfold op_code, Rd_decode, ImmU_decode, wrap_i32.
  change 0x7F with (Z.ones 7). rewrite Z.land_ones by lia.
  change 0xF80 with (Z.shiftl (Z.ones 5) 7).
  rewrite field_mask, Z.shiftr_div_pow2 by lia. subst w.
  repeat split; first [f_equal | idtac]; Z.div_mod_to_equations; lia.
Qed.

Lemma Register_index_range (r : Register) : 0 <= Register_index r < 32.
Proof. destruct r; cbn; lia. Qed.

Lemma sign_extend_12_split (v : Z) (H : -2048 <= v <= 2047) :
  sign_extend_12_spec (v mod 32 + 32 * (v mod 4096 / 32)) = v.
Proof.
  transitivity (sign_extend_12_spec v); [| now apply sign_extend_12_id].
  unfold sign_extend_12_spec.
  replace ((v mod 32 + 32 * (v mod 4096 / 32)) mod 4096) with (v mod 4096);
  [reflexivity | Z.div_mod_to_equations; lia].
Qed.

Lemma land_minus_2 (x : Z) : Z.land x (-2) = x / 2 * 2.
Proof.
  change (-2) with (Z.lnot (Z.ones 1)).
  rewrite <- Z.ldiff_land, Z.ldiff_ones_r, Z.shiftl_mul_pow2, Z.shiftr_div_pow2 by lia.
  reflexivity.
Qed.

Lemma land_field (x k n : Z) (Hk : 0 <= k) (Hn : 0 <= n) :
  Z.land x (Z.shiftl (Z.ones k) n) = (x / 2 ^ n) mod 2 ^ k * 2 ^ n.
Proof. rewrite land_shifted_ones by lia. now apply Z.shiftl_mul_pow2. Qed.

Lemma BImm_encode_bits (v : Z) :
  BImm_encode v =
    (v mod 8192) / 4096 * 2 ^ 31 + (v mod 8192) / 2048 mod 2 * 2 ^ 7
    + (v mod 8192) / 32 mod 64 * 2 ^ 25 + (v mod 8192) / 2 mod 16 * 2 ^ 8.
Proof.
  unfold BImm_encode. cbv zeta.
  rewrite !wrap_u32_shift by lia.
  change 0x80000000 with (Z.shiftl (Z.ones 1) 31).
  change 0x80 with (Z.shiftl (Z.ones 1) 7).
  change 0x7E000000 with (Z.shiftl (Z.ones 6) 25).
  change 0xF00 with (Z.shiftl (Z.ones 4) 8).
  rewrite !land_field, Z.shiftr_div_pow2 by lia. unfold wrap_u32.
  assert (P1 : (v mod 2 ^ (32 - 19) * 2 ^ 19 / 2 ^ 31) mod 2 ^ 1 = v mod 8192 / 4096)
    by (Z.div_mod_to_equations; lia).
  assert (P2 : (v mod 2 ^ 32 / 2 ^ 4 / 2 ^ 7) mod 2 ^ 1 = v mod 8192 / 2048 mod 2)
    by (Z.div_mod_to_equations; lia).
  assert (P3 : (v mod 2 ^ (32 - 20) * 2 ^ 20 / 2 ^ 25) mod 2 ^ 6 = v mod 8192 / 32 mod 64)
    by (Z.div_mod_to_equations; lia).
  assert (P4 : (v mod 2 ^ (32 - 7) * 2 ^ 7 / 2 ^ 8) mod 2 ^ 4 = v mod 8192 / 2 mod 16)
    by (Z.div_mod_to_equations; lia).
  rewrite P1, P2, P3, P4. reflexivity.
Qed.

Lemma BImm_decode_bits (b12 b11 b6 b4 : Z)
    (H12 : 0 <= b12 < 2) (H11 : 0 <= b11 < 2) (H6 : 0 <= b6 < 64) (H4 : 0 <= b4 < 16) :
  BImm_decode (b12 * 2 ^ 31 + b11 * 2 ^ 7 + b6 * 2 ^ 25 + b4 * 2 ^ 8) =
    - b12 * 4096 + b11 * 2048 + b6 * 32 + b4 * 2.
Proof.
  unfold BImm_decode.
  change 0x80000000 with (Z.shiftl (Z.ones 1) 31).
  change 0x80 with (Z.shiftl (Z.ones 1) 7).
  change 0x7E000000 with (Z.shiftl (Z.ones 6) 25).
  change 0xF00 with (Z.shiftl (Z.ones 4) 8).
  rewrite !land_field by lia.
  set (w := b12 * 2 ^ 31 + b11 * 2 ^ 7 + b6 * 2 ^ 25 + b4 * 2 ^ 8).
  replace ((w / 2 ^ 31) mod 2 ^ 1) with b12 by (subst w; Z.div_mod_to_equations; lia).
  replace ((w / 2 ^ 7) mod 2 ^ 1) with b11 by (subst w; Z.div_mod_to_equations; lia).
  replace ((w / 2 ^ 25) mod 2 ^ 6) with b6 by (subst w; Z.div_mod_to_equations; lia).
  replace ((w / 2 ^ 8) mod 2 ^ 4) with b4 by (subst w; Z.div_mod_to_equations; lia).
  rewrite land_minus_2, !Z.shiftr_div_pow2, Z.shiftl_mul_pow2 by lia.
  unfold wrap_i32, wrap_i16.
  assert (b12 = 0 \/ b12 = 1) as [-> | ->] by lia; Z.div_mod_to_equations; lia.
Qed.

Lemma BImm_roundtrip (v : Z) (Hv : -4096 <= v <= 4094) (Heven : v mod 2 = 0) :
  BImm_decode (BImm_encode v) = v.
Proof.
  rewrite BImm_encode_bits, BImm_decode_bits by (Z.div_mod_to_equations; lia).
  Z.div_mod_to_equations. lia.
Qed.

Lemma JImm_encode_bits (v : Z) :
  JImm_encode v =
    (v mod 2 ^ 21) / 2 ^ 20 * 2 ^ 31 + (v mod 2 ^ 21) / 2 mod 1024 * 2 ^ 21
    + (v mod 2 ^ 21) / 2048 mod 2 * 2 ^ 20 + (v mod 2 ^ 21) / 4096 mod 256 * 2 ^ 12.
Proof.
  unfold JImm_encode. cbv zeta.
  rewrite !wrap_u32_shift by lia.
  change 0x80000000 with (Z.shiftl (Z.ones 1) 31).
  change 0x7FE00000 with (Z.shiftl (Z.ones 10) 21).
  change 0x100000 with (Z.shiftl (Z.ones 1) 20).
  change 0xFF000 with (Z.shiftl (Z.ones 8) 12).
  rewrite !land_field by lia. unfold wrap_u32.
  assert (P1 : (v mod 2 ^ (32 - 11) * 2 ^ 11 / 2 ^ 31) mod 2 ^ 1 = v mod 2 ^ 21 / 2 ^ 20)
    by (Z.div_mod_to_equations; lia).
  assert (P2 : (v mod 2 ^ (32 - 20) * 2 ^ 20 / 2 ^ 21) mod 2 ^ 10 = v mod 2 ^ 21 / 2 mod 1024)
    by (Z.div_mod_to_equations; lia).
  assert (P3 : (v mod 2 ^ (32 - 9) * 2 ^ 9 / 2 ^ 20) mod 2 ^ 1 = v mod 2 ^ 21 / 2048 mod 2)
    by (Z.div_mod_to_equations; lia).
  assert (P4 : (v mod 2 ^ 32 / 2 ^ 12) mod 2 ^ 8 = v mod 2 ^ 21 / 4096 mod 256)
    by (Z.div_mod_to_equations; lia).
  rewrite P1, P2, P3, P4. reflexivity.
Qed.

Lemma JImm_decode_bits (j20 j10 j11 j8 : Z)
    (H20 : 0 <= j20 < 2) (H10 : 0 <= j10 < 1024) (H11 : 0 <= j11 < 2) (H8 : 0 <= j8 < 256) :
  JImm_decode (j20 * 2 ^ 31 + j10 * 2 ^ 21 + j11 * 2 ^ 20 + j8 * 2 ^ 12) =
    - j20 * 2 ^ 20 + j10 * 2 + j11 * 2048 + j8 * 4096.
Proof.
  unfold JImm_decode.
  change 0x80000000 with (Z.shiftl (Z.ones 1) 31).
  change 0x7FE00000 with (Z.shiftl (Z.ones 10) 21).
  change 0x100000 with (Z.shiftl (Z.ones 1) 20).
  change 0xFF000 with (Z.shiftl (Z.ones 8) 12).
  rewrite !land_field by lia.
  set (w := j20 * 2 ^ 31 + j10 * 2 ^ 21 + j11 * 2 ^ 20 + j8 * 2 ^ 12).
  replace ((w / 2 ^ 31) mod 2 ^ 1) with j20 by (subst w; Z.div_mod_to_equations; lia).
  replace ((w / 2 ^ 21) mod 2 ^ 10) with j10 by (subst w; Z.div_mod_to_equations; lia).
  replace ((w / 2 ^ 20) mod 2 ^ 1) with j11 by (subst w; Z.div_mod_to_equations; lia).
  replace ((w / 2 ^ 12) mod 2 ^ 8) with j8 by (subst w; Z.div_mod_to_equations; lia).
  rewrite land_minus_2, !Z.shiftr_div_pow2 by lia.
  unfold wrap_i32.
  assert (j20 = 0 \/ j20 = 1) as [-> | ->] by lia; Z.div_mod_to_equations; lia.
Qed.

Lemma JImm_roundtrip (v : Z) (Hv : - 2 ^ 20 <= v <= 2 ^ 20 - 2) (Heven : v mod 2 = 0) :
  JImm_decode (JImm_encode v) = v.
Proof.
  rewrite JImm_encode_bits, JImm_decode_bits by (Z.div_mod_to_equations; lia).
  Z.div_mod_to_equations. lia.
Qed.

Ltac field_range := first [lia | Z.div_mod_to_equations; lia].

Ltac encode_arith :=
  cbn [encode]; unfold R_encode, I_encode, I_encode_csr, I_encode_csri,
    I_encode_shamt, U_encode, S_encode, Rd_encode, Rs1_encode, Rs2_encode;
  rewrite ?ImmI_encode_mod, ?ImmU_encode_mod, ?Csr_encode_mod, ?Shamt_encode_mod,
    ?CsrImm_encode_mod, ?SImmI_encode_mod, !Z.shiftl_mul_pow2 by lia;
  Z.div_mod_to_equations; lia.

Ltac decode_word c0 a c1 b e g :=
  let E0 := fresh "E0" in
  let Ed := fresh "Ed" in
  let E3 := fresh "E3" in
  let E1 := fresh "E1" in
  let E2 := fresh "E2" in
  let E7 := fresh "E7" in
  let E6 := fresh "E6" in
  let Es := fresh "Es" in
  let Ei := fresh "Ei" in
  let Ec := fresh "Ec" in
  let Eci := fresh "Eci" in
  let Esi := fresh "Esi" in
  match goal with |- decode ?w = _ =>
    destruct (decode_fields w c0 a c1 b e g ltac:(field_range) ltac:(field_range)
      ltac:(field_range) ltac:(field_range) ltac:(field_range) ltac:(field_range)
      ltac:(encode_arith))
      as (E0 & Ed & E3 & E1 & E2 & E7 & E6 & Es & Ei & Ec & Eci & Esi)
  end;
  unfold decode; rewrite ?E0, ?Ed, ?E3, ?E1, ?E2, ?E7, ?E6, ?Es, ?Ei, ?Ec, ?Eci, ?Esi;
  rewrite ?Register_const_from_index.

Ltac decode_finish :=
  cbv iota beta zeta; repeat f_equal;
  first [apply sign_extend_12_split; lia | Z.div_mod_to_equations; lia].

(** X: [decode] inverts [encode] on every instruction whose fields fit
    their encoding ([encodable]: 12-bit signed immediates and offsets,
    20-bit upper immediates, 6-bit shift amounts, 12-bit CSR numbers and
    5-bit CSR immediates); [JAL] and the branches are left out. *)
Theorem decode_encode_roundtrip (i : Instruction) (H : encodable i = true) :
  decode (encode i) = Some (Ok i).
Proof.
  destruct i; cbn [encodable] in H; try discriminate; unfold imm12_fits in H;
  repeat match type of H with
    | (_ && _)%bool = true => apply andb_true_iff in H; destruct H as [H ?H]
    end;
  repeat match goal with
    | Hb : (_ <=? _) = true |- _ => apply Z.leb_le in Hb
    | Hb : (_ <? _) = true |- _ => apply Z.ltb_lt in Hb
    end;
  repeat match goal with
    | r : Register |- _ => lazymatch goal with
        | _ : 0 <= Register_index r < 32 |- _ => fail
        | _ => pose proof (Register_index_range r) end
    end.
  - destruct (decode_fields_U (encode (LUI rd imm)) 0x37 (Register_index rd) imm
      ltac:(lia) ltac:(lia) ltac:(lia) ltac:(encode_arith)) as (E0 & Ed & Eu).
    unfold decode. now rewrite E0, Ed, Eu, Register_const_from_index.
  - destruct (decode_fields_U (encode (AUIPC rd imm)) 0x17 (Register_index rd) imm
      ltac:(lia) ltac:(lia) ltac:(lia) ltac:(encode_arith)) as (E0 & Ed & Eu).
    unfold decode. now rewrite E0, Ed, Eu, Register_const_from_index.
  - decode_word 0x13 (Register_index rd) 0 (Register_index rs1) (imm mod 32) (imm mod 4096 / 32). decode_finish.
  - decode_word 0x13 (Register_index rd) 2 (Register_index rs1) (imm mod 32) (imm mod 4096 / 32). decode_finish.
  - decode_word 0x13 (Register_index rd) 3 (Register_index rs1) (imm mod 32) (imm mod 4096 / 32). decode_finish.
  - decode_word 0x13 (Register_index rd) 4 (Register_index rs1) (imm mod 32) (imm mod 4096 / 32). decode_finish.
  - decode_word 0x13 (Register_index rd) 6 (Register_index rs1) (imm mod 32) (imm mod 4096 / 32). decode_finish.
  - decode_word 0x13 (Register_index rd) 7 (Register_index rs1) (imm mod 32) (imm mod 4096 / 32). decode_finish.
  - decode_word 0x13 (Register_index rd) 1 (Register_index rs1) (shamt mod 32) (shamt / 32). decode_finish.
  - decode_word 0x13 (Register_index rd) 5 (Register_index rs1) (shamt mod 32) (shamt / 32).
    replace (shamt / 32 / 2) with 0 by field_range. decode_finish.
  - decode_word 0x13 (Register_index rd) 5 (Register_index rs1) (shamt mod 32) (shamt / 32 + 32).
    replace ((shamt / 32 + 32) / 2) with 16 by field_range. decode_finish.
  - decode_word 0x33 (Register_index rd) 0 (Register_index rs1) (Register_index rs2) 0. decode_finish.
  - decode_word 0x33 (Register_index rd) 0 (Register_index rs1) (Register_index rs2) 32. decode_finish.
  - decode_word 0x33 (Register_index rd) 1 (Register_index rs1) (Register_index rs2) 0. decode_finish.
  - decode_word 0x33 (Register_index rd) 2 (Register_index rs1) (Register_index rs2) 0. decode_finish.
  - decode_word 0x33 (Register_index rd) 3 (Register_index rs1) (Register_index rs2) 0. decode_finish.
  - decode_word 0x33 (Register_index rd) 4 (Register_index rs1) (Register_index rs2) 0. decode_finish.
  - decode_word 0x33 (Register_index rd) 5 (Register_index rs1) (Register_index rs2) 0. decode_finish.
  - decode_word 0x33 (Register_index rd) 5 (Register_index rs1) (Register_index rs2) 32. decode_finish.
  - decode_word 0x33 (Register_index rd) 6 (Register_index rs1) (Register_index rs2) 0. decode_finish.
  - decode_word 0x33 (Register_index rd) 7 (Register_index rs1) (Register_index rs2) 0. decode_finish.
  - decode_word 0x03 (Register_index rd) 0 (Register_index rs1) (offset mod 32) (offset mod 4096 / 32). decode_finish.
  - decode_word 0x03 (Register_index rd) 1 (Register_index rs1) (offset mod 32) (offset mod 4096 / 32). decode_finish.
  - decode_word 0x03 (Register_index rd) 2 (Register_index rs1) (offset mod 32) (offset mod 4096 / 32). decode_finish.
  - decode_word 0x03 (Register_index rd) 4 (Register_index rs1) (offset mod 32) (offset mod 4096 / 32). decode_finish.
  - decode_word 0x03 (Register_index rd) 5 (Register_index rs1) (offset mod 32) (offset mod 4096 / 32). decode_finish.
  - decode_word 0x23 (offset mod 32) 0 (Register_index rs1) (Register_index rs2) (offset mod 4096 / 32). decode_finish.
  - decode_word 0x23 (offset mod 32) 1 (Register_index rs1) (Register_index rs2) (offset mod 4096 / 32). decode_finish.
  - decode_word 0x23 (offset mod 32) 2 (Register_index rs1) (Register_index rs2) (offset mod 4096 / 32). decode_finish.
  - decode_word 0x73 (Register_index rd) 1 (Register_index rs1) (csr mod 32) (csr / 32). decode_finish.
  - decode_word 0x73 (Register_index rd) 2 (Register_index rs1) (csr mod 32) (csr / 32). decode_finish.
  - decode_word 0x73 (Register_index rd) 3 (Register_index rs1) (csr mod 32) (csr / 32). decode_finish.
  - decode_word 0x73 (Register_index rd) 5 imm (csr mod 32) (csr / 32).
    destruct (Register_index_onto imm ltac:(lia)) as (r & -> & _). decode_finish.
  - decode_word 0x73 (Register_index rd) 6 imm (csr mod 32) (csr / 32).
    destruct (Register_index_onto imm ltac:(lia)) as (r & -> & _). decode_finish.
  - decode_word 0x73 (Register_index rd) 7 imm (csr mod 32) (csr / 32).
    destruct (Register_index_onto imm ltac:(lia)) as (r & -> & _). decode_finish.
  - decode_word 0x67 (Register_index rd) 0 (Register_index rs1) (offset mod 32) (offset mod 4096 / 32). decode_finish.
Qed.

Lemma decode_encode_roundtrip_witness :
  decode (encode (SW SP RA (-4))) = Some (Ok (SW SP RA (-4))) /\
  decode (encode (SRAI A0 A1 33)) = Some (Ok (SRAI A0 A1 33)).
Proof.
  split; apply decode_encode_roundtrip; reflexivity.
Defined.

(** X: the branch and jump offset codecs of [bimm.rs] and [jimm.rs] are
    inverse on even offsets in range: [BImm::decode (BImm::encode v) = v]
    for [v] in [-4096, 4094], and [JImm::decode (JImm::encode v) = v] for
    [v] in [-2^20, 2^20 - 2]. *)
Theorem offset_codecs_roundtrip (v : Z) (Heven : v mod 2 = 0) :
  (-4096 <= v <= 4094 -> BImm_decode (BImm_encode v) = v) /\
  (- 2 ^ 20 <= v <= 2 ^ 20 - 2 -> JImm_decode (JImm_encode v) = v).
Proof.
  split; intros Hv; [now apply BImm_roundtrip | now apply JImm_roundtrip].
Qed.

Lemma offset_codecs_roundtrip_witness :
  BImm_decode (BImm_encode (-42)) = -42 /\ JImm_decode (JImm_encode 2046) = 2046.
Proof.
  split.
  - apply (proj1 (offset_codecs_roundtrip (-42) ltac:(reflexivity))); lia.
  - apply (proj2 (offset_codecs_roundtrip 2046 ltac:(reflexivity))); lia.
Defined.

(** ** Integer conversions ([integer.rs]) *)

(** The 4096 values of the low 12 bits: [is_positive] tests bit 11. *)
Lemma is_positive_low12_exhaustive :
  forallb (fun n : nat =>
             let lo := Z.of_nat n in Bool.eqb (i12.is_positive lo) (lo <? 2048))
          (seq 0 4096) = true.
Proof. vm_compute. reflexivity. Qed.

Lemma is_positive_bit11 (v : Z) : i12.is_positive v = (v mod 4096 <? 2048).
Proof.
  rewrite is_positive_low12.
  pose proof is_positive_low12_exhaustive as Hall.
  rewrite forallb_forall in Hall.
  specialize (Hall (Z.to_nat (v mod 4096))).
  pose proof (Z.mod_pos_bound v 4096 ltac:(lia)).
  rewrite in_seq, Z2Nat.id in Hall by lia.
  apply Bool.eqb_prop, Hall. lia.
Qed.

(** X: [i12::sign_extend] always yields an [i12] (within [i12::MIN] and
    [i12::MAX]) with the same low 12 bits as its argument, leaves an
    argument that is already an [i12] unchanged, and [i12::is_positive]
    holds exactly when the sign-extended value is non-negative. *)
Theorem i12_sign_extend_range (v : Z) :
  i12.MIN <= i12.sign_extend v <= i12.MAX /\
  i12.sign_extend v mod 4096 = v mod 4096 /\
  (i12.MIN <= v <= i12.MAX -> i12.sign_extend v = v) /\
  i12.is_positive v = (0 <=? i12.sign_extend v).
Proof.
  rewrite sign_extend_agrees, is_positive_bit11.
  unfold sign_extend_12_spec, i12.MIN, i12.MAX. cbv zeta.
  pose proof (Z.mod_pos_bound v 4096 ltac:(lia)).
  destruct (Z.leb_spec 2048 (v mod 4096)) as [Hl | Hl].
  - replace (v mod 4096 <? 2048) with false by (symmetry; apply Z.ltb_ge; lia).
    replace (0 <=? v mod 4096 - 4096) with false by (symmetry; apply Z.leb_gt; lia).
    repeat split; try (intros; Z.div_mod_to_equations; lia);
      Z.div_mod_to_equations; lia.
  - replace (v mod 4096 <? 2048) with true by (symmetry; apply Z.ltb_lt; lia).
    pose proof (Z.mod_pos_bound v 4096 ltac:(lia)).
    replace (0 <=? v mod 4096) with true by (symmetry; apply Z.leb_le; lia).
    repeat split; try (intros; Z.div_mod_to_equations; lia);
      first [apply Z.mod_mod; lia | Z.div_mod_to_equations; lia].
Qed.

Lemma i12_sign_extend_range_witness :
  i12.sign_extend 4095 = -1 /\ i12.sign_extend (-5) = -5.
Proof.
  split.
  - pose proof (i12_sign_extend_range 4095) as (H1 & H2 & _). unfold i12.MIN, i12.MAX in H1.
    Z.div_mod_to_equations. lia.
  - destruct (i12_sign_extend_range (-5)) as (_ & _ & H & _).
    apply H. unfold i12.MIN, i12.MAX. lia.
Defined.

(** X: [as_unsigned] and [as_signed] on 32-bit values are inverse bit
    reinterpretations: an [i32] survives [as_unsigned] then [as_signed], and
    a [u32] survives [as_signed] then [as_unsigned]. *)
Theorem as_signed_as_unsigned (x u : Z) (Hx : in_i32 x = true) (Hu : 0 <= u < 2 ^ 32) :
  as_signed (as_unsigned x) = x /\ as_unsigned (as_signed u) = u.
Proof.
  apply in_i32_bounds in Hx.
  unfold as_signed, as_unsigned, wrap_i32, wrap_u32.
  split; Z.div_mod_to_equations; lia.
Qed.

Lemma as_signed_as_unsigned_witness :
  as_signed (as_unsigned (-1)) = -1 /\ as_unsigned (as_signed (2 ^ 32 - 1)) = 2 ^ 32 - 1.
Proof.
  apply as_signed_as_unsigned; [reflexivity | lia].
Defined.
